(** * Deployment manifest store of Vortex: [activationStore.ts]

    A shallow embedding of
    [src/extensions/mod_management/util/activationStore.ts] and the
    properties of its load / save / purge logic.

    - JavaScript values read from the manifest file are [json] values; the
      header fields of the manifest ([version], [instance],
      [deploymentMethod]) follow the TypeScript interface, with [None] for
      [undefined], and numbers are integers ([Z]).
    - Promises and the collaborators (file system, dialog, notifications) are
      a free monad [prog] over the calls the code makes; [run] interprets a
      program against an arbitrary environment and records the calls made.
    - Bluebird's [Promise.map] calls the mapper on every element first, so
      that the first call of every promise is made before any answer is
      looked at; the answers then reach the promises in an order the program
      does not fix, given to the model as a [schedule]. The properties hold
      for every schedule. *)

From Stdlib Require Import ZArith String Ascii List Lia Bool DecimalString.
From stdpp Require Import base option strings gmap.

Import ListNotations.
Set Warnings "-register-all".
Local Open Scope string_scope.
Local Open Scope list_scope.
Local Open Scope Z_scope.

(** ** JavaScript values and errors *)

Module Js.

(** What [JSON.parse] can produce. An object is the list of its own
    properties; [prop] reads the first binding of a key. *)
Inductive json : Type :=
| JNull
| JBool (b : bool)
| JNum (n : Z)
| JStr (s : string)
| JArr (items : list json)
| JObj (fields : list (string * json)).

Fixpoint assoc (k : string) (fields : list (string * json)) : option json :=
  match fields with
  | [] => None
  | (k', v) :: rest => if String.eqb k k' then Some v else assoc k rest
  end.

(** [v.k] for a key that no prototype defines: [None] is [undefined].
    On [null] the access throws: the callers treat [null] themselves. *)
Definition prop (v : json) (k : string) : option json :=
  match v with
  | JObj fields => assoc k fields
  | _ => None
  end.

(** [(x !== undefined) && (x !== null)] *)
Definition present (x : option json) : bool :=
  match x with
  | None => false
  | Some JNull => false
  | Some _ => true
  end.

(** An [Error] object: its class name, its [code] (set by file system
    errors only) and its [message]. *)
Record error : Type := mkError {
  err_name : string;
  err_code : option string;
  err_message : string
}.

Definition Error_ (message : string) : error := mkError "Error" None message.
Definition TypeError (message : string) : error := mkError "TypeError" None message.

(** [new UserCanceled()] of util/CustomErrors (not among the sources):
    an error class of its own, without [code]. *)
Definition UserCanceled : error := mkError "UserCanceled" None "canceled by user".

(** Either a value or a thrown / rejected error. *)
Inductive result (A : Type) : Type :=
| Ok (a : A)
| Err (e : error).
Arguments Ok {A} a.
Arguments Err {A} e.

(** [`${n}`] for an integer. *)
Definition show_Z (n : Z) : string := NilZero.string_of_int (Z.to_int n).

(** [x || d] on [number | undefined]. *)
Definition num_or (x : option Z) (d : Z) : Z :=
  match x with
  | Some n => if n =? 0 then d else n
  | None => d
  end.

(** [x < n] on [number | undefined]: [undefined] converts to NaN. *)
Definition num_lt (x : option Z) (n : Z) : bool :=
  match x with
  | Some m => m <? n
  | None => false
  end.

(** [x === y] on [number | undefined]. *)
Definition num_eq (x y : option Z) : bool :=
  match x, y with
  | Some m, Some n => m =? n
  | None, None => true
  | _, _ => false
  end.

(** Modelled from the spec: [truthy] of util/util is not among the sources;
    "falsy/absent" is JavaScript truthiness, here on [number | undefined]
    and on [string | undefined]. *)
Definition truthy_num (x : option Z) : bool :=
  match x with
  | Some n => negb (n =? 0)
  | None => false
  end.

Definition truthy_str (x : option string) : bool :=
  match x with
  | Some s => negb (String.eqb s "")
  | None => false
  end.

End Js.
Export Js.

(** ** The manifest *)

(** [IDeploymentManifest] as the interface declares it: what the code holds
    once [repairManifest] has returned. The elements of [files] stay the
    parsed values: [repairManifest] checks that three properties are there,
    not their types. *)
Record IDeploymentManifest : Type := mkManifest {
  version : Z;
  instance : string;
  deploymentMethod : option string;
  files : list json
}.

(** The object [JSON.parse] returns, seen through the properties the code
    reads, before anything is known about it. A header property is absent
    or has the type the interface declares; a manifest file in which
    [version] is a string, say, is outside the embedding. *)
Record ParsedManifest : Type := mkParsed {
  p_version : option Z;
  p_instance : option string;
  p_deploymentMethod : option string;
  p_files : option json
}.

Definition ManifestFormat : Type := ParsedManifest -> result ParsedManifest.

Definition CURRENT_VERSION : Z := 1.

Definition emptyManifest (instance : string) : IDeploymentManifest :=
  {| version := CURRENT_VERSION;
     instance := instance;
     deploymentMethod := None;
     files := [] |}.

(** The test of lines 46-49 of the source. *)
Definition keeps (file : json) : bool :=
  match file with
  | JNull => false
  | _ => present (prop file "relPath")
         && present (prop file "source")
         && present (prop file "time")
  end.

(** The callback given to [reduce]: [push] appends to the accumulator. *)
Definition repairStep (prev : list json) (file : json) : list json :=
  if keeps file then prev ++ [file] else prev.

(** [input.files.reduce(...)]: a [TypeError] unless [files] is an array. *)
Definition reduceFiles (fs : option json) : result (list json) :=
  match fs with
  | Some (JArr items) => Ok (fold_left repairStep items [])
  | None => Err (TypeError "Cannot read property 'reduce' of undefined")
  | Some JNull => Err (TypeError "Cannot read property 'reduce' of null")
  | Some _ => Err (TypeError "input.files.reduce is not a function")
  end.

Definition repairManifest (input : ParsedManifest) : result IDeploymentManifest :=
  let version := if truthy_num (p_version input)
                 then default CURRENT_VERSION (p_version input)
                 else CURRENT_VERSION in
  let instance := if truthy_str (p_instance input)
                  then default "" (p_instance input)
                  else "" in
  match reduceFiles (p_files input) with
  | Ok fs => Ok {| version := version;
                   instance := instance;
                   deploymentMethod := p_deploymentMethod input;
                   files := fs |}
  | Err e => Err e
  end.

(** ** Decoding *)

Section Decode.

(** [JSON.parse], a built-in of the runtime. *)
Variable JSON_parse : string -> result ParsedManifest.

(** [./manifest_formats/format_1], not among the sources. *)
Variable format_1 : ManifestFormat.

(** [const formats = { 1: format_1 }], indexed by a number: the version of
    a [ParsedManifest] is a number or absent, as the interface declares it,
    and the only numeric key of the object, own or inherited, is 1. *)
Definition formats (v : Z) : option ManifestFormat :=
  if v =? 1 then Some format_1 else None.

Definition unsupportedUpgrade (v : option Z) : error :=
  Error_ ("unsupported format upgrade "
          +:+ match v with Some n => show_Z n | None => "undefined" end
          +:+ " -> " +:+ show_Z CURRENT_VERSION).

(** The [while] loop of lines 64-71. [None]: the iterations allowed by
    [fuel] did not reach the exit. *)
Fixpoint upgradeLoop (fuel : nat) (lastVersion : option Z) (parsed : ParsedManifest)
  : option (result ParsedManifest) :=
  if num_lt lastVersion CURRENT_VERSION then
    match fuel with
    | O => None
    | S fuel' =>
        match formats (num_or (p_version parsed) 1) with
        | None => Some (Err (TypeError "formats[(parsed.version || 1)] is not a function"))
        | Some upgrade =>
            match upgrade parsed with
            | Err e => Some (Err e)
            | Ok parsed' =>
                if num_eq (p_version parsed') lastVersion
                   && num_lt (p_version parsed') CURRENT_VERSION
                then Some (Err (unsupportedUpgrade (p_version parsed')))
                else upgradeLoop fuel' (p_version parsed') parsed'
            end
        end
    end
  else Some (Ok parsed).

(** [if (parsed.files === undefined) parsed.files = []] *)
Definition defaultFiles (parsed : ParsedManifest) : ParsedManifest :=
  match p_files parsed with
  | None => {| p_version := p_version parsed;
               p_instance := p_instance parsed;
               p_deploymentMethod := p_deploymentMethod parsed;
               p_files := Some (JArr []) |}
  | Some _ => parsed
  end.

(** [readManifest]: [Ok None] is the [undefined] returned for the empty
    text. *)
Definition readManifest (fuel : nat) (data : string)
  : option (result (option IDeploymentManifest)) :=
  if String.eqb data "" then Some (Ok None)
  else
    match JSON_parse data with
    | Err e => Some (Err e)
    | Ok parsed =>
        match upgradeLoop fuel (Some 0) parsed with
        | None => None
        | Some (Err e) => Some (Err e)
        | Some (Ok parsed) =>
            match repairManifest (defaultFiles parsed) with
            | Ok m => Some (Ok (Some m))
            | Err e => Some (Err e)
            end
        end
    end.

End Decode.

(** ** Promises and collaborators *)

Module Fx.

(** [fs.Stats], of which the code reads [mtime.getTime()] only. *)
Record Stats : Type := mkStats { mtime : Z }.

(** [IDialogResult], of which the code reads [action] only. *)
Record IDialogResult : Type := mkDialogResult { action : string }.

(** The calls that leave the module. *)
Inductive call : Type :=
| ReadFileAsync (path encoding : string)
| StatAsync (path : string)
| UnlinkAsync (path : string)
| RemoveAsync (path : string)
| WriteFileAtomic (path data : string)
| ShowDialog (type title text : string) (actions : list string)
| ShowErrorNotification (title : string) (details : error) (allowReport : bool).

Definition answer (c : call) : Type :=
  match c with
  | ReadFileAsync _ _ => string
  | StatAsync _ => Stats
  | ShowDialog _ _ _ _ => IDialogResult
  | UnlinkAsync _ | RemoveAsync _ | WriteFileAtomic _ _
  | ShowErrorNotification _ _ _ => unit
  end.

(** A promise-returning computation: settled with a value, rejected with
    an error, never settling ([Spin], met only when a loop runs out of
    fuel), or waiting for the outcome of a call. *)
Inductive prog (A : Type) : Type :=
| Ret (a : A)
| Throw (e : error)
| Spin
| Vis (c : call) (k : result (answer c) -> prog A).
Arguments Ret {A} a.
Arguments Throw {A} e.
Arguments Spin {A}.
Arguments Vis {A} c k.

Definition lift {A} (r : result A) : prog A :=
  match r with
  | Ok a => Ret a
  | Err e => Throw e
  end.

(** The promise of one call. *)
Definition perform (c : call) : prog (answer c) := Vis c lift.

(** [p.then(f)] *)
Fixpoint bind {A B} (p : prog A) (f : A -> prog B) : prog B :=
  match p with
  | Ret a => f a
  | Throw e => Throw e
  | Spin => Spin
  | Vis c k => Vis c (fun r => bind (k r) f)
  end.

(** [p.catch(h)] *)
Fixpoint catch {A} (p : prog A) (h : error -> prog A) : prog A :=
  match p with
  | Ret a => Ret a
  | Throw e => h e
  | Spin => Spin
  | Vis c k => Vis c (fun r => catch (k r) h)
  end.

(** The settled outcome of a promise, as a value. *)
Definition attempt {A} (p : prog A) : prog (result A) :=
  catch (bind p (fun a => Ret (Ok a))) (fun e => Ret (Err e)).

(** [Promise.map], first half: the mapper is called on the elements in
    order, until a call throws; the array promise is rejected with what was
    thrown and the remaining elements are not visited. *)
Fixpoint startAll {A B} (mapper : A -> result (prog B)) (items : list A)
  : list (prog B) * option error :=
  match items with
  | [] => ([], None)
  | x :: rest =>
      match mapper x with
      | Err e => ([], Some e)
      | Ok p => let '(ps, thrown) := startAll mapper rest in (p :: ps, thrown)
      end
  end.

(** The values of the outcomes, or the first rejection among them. *)
Fixpoint collect {B} (outcomes : list (result B)) : result (list B) :=
  match outcomes with
  | [] => Ok []
  | Err e :: _ => Err e
  | Ok b :: rest =>
      match collect rest with
      | Ok bs => Ok (b :: bs)
      | Err e => Err e
      end
  end.

(** [Promise.map], second half. A promise the mapper returned has made its
    first call when the mapper returns; from then on it waits for the answer
    to the call it made last to be delivered: [Running p] goes on as [p] at
    that moment. A call is answered by the environment when it is made; when the
    answer is delivered is not up to the program. *)
Inductive slot (B : Type) : Type :=
| Running (p : prog B)
| Settled (r : result B).
Arguments Running {B} p.
Arguments Settled {B} r.

(** The call a promise makes where it is created. (The mapper of this
    module returns promises that wait for a call; one that is settled from
    the start counts as one whose answer is yet to be delivered.) *)
Definition issue {B} (p : prog B) : prog (slot B) :=
  match p with
  | Vis c k => Vis c (fun r => Ret (Running (k r)))
  | _ => Ret (Running p)
  end.

Fixpoint issueAll {B} (ps : list (prog B)) : prog (list (slot B)) :=
  match ps with
  | [] => Ret []
  | p :: rest =>
      bind (issue p) (fun s =>
      bind (issueAll rest) (fun ss => Ret (s :: ss)))
  end.

(** The answer a promise waits for is delivered: the promise settles, or
    makes its next call. *)
Definition advance {B} (s : slot B) : prog (slot B) :=
  match s with
  | Running (Ret b) => Ret (Settled (Ok b))
  | Running (Throw e) => Ret (Settled (Err e))
  | Running (Vis c k) => Vis c (fun r => Ret (Running (k r)))
  | Running Spin => Ret (Running Spin)
  | Settled r => Ret (Settled r)
  end.

(** The rejection that the delivery to [s] brings. *)
Definition rejection {B} (s : slot B) : option error :=
  match s with
  | Running (Throw e) => Some e
  | _ => None
  end.

(** The array promise keeps the first rejection it sees. *)
Definition firstOf (first later : option error) : option error :=
  match first with
  | Some e => Some e
  | None => later
  end.

(** The deliveries the [schedule] names: at each step, the index of the
    promise whose answer comes next. [first] is the rejection that has
    reached the array promise. *)
Fixpoint deliver {B} (schedule : list nat) (pool : list (slot B)) (first : option error)
  : prog (list (slot B) * option error) :=
  match schedule with
  | [] => Ret (pool, first)
  | i :: rest =>
      match pool !! i with
      | Some s =>
          bind (advance s) (fun s' =>
          deliver rest (<[i := s']> pool) (firstOf first (rejection s)))
      | None => deliver rest pool first
      end
  end.

(** After the schedule, the promises still running come to their end one
    after the other. *)
Fixpoint drain {B} (pool : list (slot B)) (first : option error)
  : prog (list (result B) * option error) :=
  match pool with
  | [] => Ret ([], first)
  | Settled r :: rest =>
      bind (drain rest first) (fun '(rs, f) => Ret (r :: rs, f))
  | Running p :: rest =>
      bind (attempt p) (fun r =>
      bind (drain rest (firstOf first (match r with
                                       | Err e => Some e
                                       | Ok _ => None
                                       end)))
           (fun '(rs, f) => Ret (r :: rs, f)))
  end.

(** [Promise.map(items, mapper)]: rejected with what a mapper threw, or
    with the first rejection delivered, or fulfilled with the values. The
    promises that are left when the array promise is rejected go on; the
    array promise is handed on when they are through, so that the calls of
    what follows the map come after the calls of the map. (Moving the
    deliveries of the rejections to the end of a schedule changes neither
    the calls and their answers nor the rejection that comes first, and
    then it is so.) *)
Definition Promise_map {A B} (schedule : list nat) (items : list A)
           (mapper : A -> result (prog B)) : prog (list B) :=
  let '(ps, thrown) := startAll mapper items in
  bind (issueAll ps) (fun pool =>
  bind (deliver schedule pool None) (fun '(pool', first) =>
  bind (drain pool' first) (fun '(outcomes, first') =>
    match thrown with
    | Some e => Throw e
    | None =>
        match first' with
        | Some e => Throw e
        | None => lift (collect outcomes)
        end
    end))).

(** *** Running a program in an environment *)

Section Run.

(** The environment: a state and its answer to each call. *)
Context {W : Type} (handle : forall c : call, W -> result (answer c) * W).

(** The calls made, in order, the state left behind and the outcome
    ([None] for a promise that never settles). *)
Fixpoint run {A} (p : prog A) (w : W) : list call * W * option (result A) :=
  match p with
  | Ret a => ([], w, Some (Ok a))
  | Throw e => ([], w, Some (Err e))
  | Spin => ([], w, None)
  | Vis c k =>
      let '(r, w1) := handle c w in
      let '(calls, w2, out) := run (k r) w1 in
      (c :: calls, w2, out)
  end.

Definition calls_of {A} (p : prog A) (w : W) : list call := (run p w).1.1.
Definition world_of {A} (p : prog A) (w : W) : W := (run p w).1.2.
Definition outcome_of {A} (p : prog A) (w : W) : option (result A) := (run p w).2.

End Run.

End Fx.
Export Fx.

#[global] Instance prog_ret : MRet prog := @Ret.
#[global] Instance prog_bind : MBind prog := fun A B f p => bind p f.

(** ** The store *)

Record IDeploymentMethod : Type := mkMethod {
  id : string;
  isFallbackPurgeSafe : bool
}.

(** [IExtensionApi], of which the code uses [translate] and, through
    [store.getState()], [app.instanceId]; [store.dispatch] and
    [showErrorNotification] are calls. *)
Record IExtensionApi : Type := mkApi {
  translate : string -> string;
  instanceId : string
}.

Definition nl : string := String "010" EmptyString.
Definition dq : string := String "034" EmptyString.

Definition queryPurgeTextSafe (t : string -> string) : string :=
  t ("IMPORTANT: This game was modded by another instance of Vortex." +:+ nl +:+ nl +:+
     "If you switch between different instances (or between shared and " +:+
     "single-user mode) it's better if you purge mods before switching." +:+ nl +:+ nl +:+
     "Vortex can try to clean up now but this is less reliable (" +:+ "*" +:+ ") than doing it " +:+
     "from the instance that deployed the files in the first place." +:+ nl +:+ nl +:+
     "If you modified any files in the game directory you should back them up " +:+
     "before continuing." +:+ nl +:+ nl +:+
     "(" +:+ "*" +:+ ") This purge relies on a manifest of deployed files, created by that other " +:+
     "instance. Files that have been changed since that manifest was created " +:+
     "won't be removed to prevent data loss. If the manifest is damaged or " +:+
     "outdated the purge may be incomplete. When purging from the " +:+ dq +:+ "right" +:+ dq +:+ " instance " +:+
     "the manifest isn't required, it can reliably deduce which files need to " +:+
     "be removed.").

Definition queryPurgeTextUnsafe (t : string -> string) : string :=
  t ("IMPORTANT: This game was modded by another instance of Vortex." +:+ nl +:+ nl +:+
     "Vortex can only proceed by purging the mods from that other instance." +:+ nl +:+ nl +:+
     "This will irreversably **destroy** the mod installations from that other " +:+
     "instance!" +:+ nl +:+ nl +:+
     "You should instead cancel now, open that other vortex instance and purge " +:+
     "from there. This can also be caused by switching between shared and " +:+
     "single-user mode.").

Arguments queryPurgeTextSafe : simpl never.
Arguments queryPurgeTextUnsafe : simpl never.

Section Store.

(** [JSON.parse] and [JSON.stringify(_, undefined, 2)], built-ins of the
    runtime. *)
Variable JSON_parse : string -> result ParsedManifest.
Variable JSON_stringify : IDeploymentManifest -> string.

(** [./manifest_formats/format_1], not among the sources. *)
Variable format_1 : ManifestFormat.

(** [path.join] of Node. *)
Variable path_join : string -> string -> string.

(** [getActivator] of [./deploymentMethods], not among the sources. *)
Variable getActivator : string -> option IDeploymentMethod.

(** The loop bound given to [readManifest]. *)
Variable fuel : nat.

(** The order in which the answers to the calls of [fallbackPurge] are
    delivered; the code does not fix it. *)
Variable schedule : list nat.

(** [stats.mtime.getTime() === file.time] *)
Definition sameTime (stats : Stats) (file : json) : bool :=
  match prop file "time" with
  | Some (JNum t) => mtime stats =? t
  | _ => false
  end.

(** The promise the mapper of [fallbackPurge] returns:
    [fs.statAsync(fullPath).then(...).catch(...)]. *)
Definition purgeAt (fullPath : string) (file : json) : prog unit :=
  catch
    (stats ← perform (StatAsync fullPath);
     if sameTime stats file
     then perform (UnlinkAsync fullPath)
     else Ret tt)
    (fun err =>
       if negb (bool_decide (err_code err = Some "ENOENT"))
       then Throw err
       else Ret tt).

(** The mapper of [fallbackPurge]. [path.join] throws on a [relPath] that
    is not a string, before any promise exists. *)
Definition purgeFile (basePath : string) (file : json) : result (prog unit) :=
  match prop file "relPath" with
  | Some (JStr relPath) =>
      let fullPath := path_join basePath relPath in
      Ok (purgeAt fullPath file)
  | _ => Err (TypeError "Path must be a string")
  end.

Definition fallbackPurge (basePath : string) (files : list json) : prog unit :=
  _ ← Promise_map schedule files (purgeFile basePath); Ret tt.

Definition queryPurge (api : IExtensionApi) (basePath : string)
           (files : list json) (safe : bool) : prog unit :=
  let t := translate api in
  let text := if safe then queryPurgeTextSafe t else queryPurgeTextUnsafe t in
  result ← perform (ShowDialog "info" (t "Purge files from different instance?")
                               text ["Cancel"; "Purge"]);
  if String.eqb (action result) "Purge"
  then catch (fallbackPurge basePath files)
             (fun err =>
                _ ← perform (ShowErrorNotification "Purging failed" err false);
                Throw UserCanceled)
  else Throw UserCanceled.

Definition typeTag (modType : option string) : string :=
  match modType with
  | Some s => if (0 <? Z.of_nat (String.length s)) then s +:+ "." else ""
  | None => ""
  end.

Definition tagFile (modType : option string) (dir : string) : string :=
  path_join dir ("vortex.deployment." +:+ typeTag modType +:+ "json").

Definition saveActivation (modType : option string) (instance : string)
           (gamePath : string) (activation : list json)
           (activatorId : string) : prog unit :=
  let tagFile := tagFile modType gamePath in
  let data := JSON_stringify {| instance := instance;
                                version := CURRENT_VERSION;
                                deploymentMethod := Some activatorId;
                                files := activation |} in
  match JSON_parse data with
  | Err err =>
      Throw (Error_ ("failed to serialize deployment information: "
                     +:+ dq +:+ err_message err +:+ dq))
  | Ok _ =>
      if (Z.of_nat (length activation) =? 0)
      then catch (perform (RemoveAsync tagFile)) (fun _ => Ret tt)
      else perform (WriteFileAtomic tagFile data)
  end.

(** [safe] as lines 171-177 compute it. *)
Definition purgeIsSafe (tagObject : IDeploymentManifest) : bool :=
  match deploymentMethod tagObject with
  | Some method =>
      match getActivator method with
      | Some previousActivator =>
          if negb (isFallbackPurgeSafe previousActivator) then false else true
      | None => true
      end
  | None => true
  end.

Definition reportRead (tagFile : string) (err : error) : error :=
  Error_ (err_message err +:+ "." +:+ nl +:+ "*** When you report this, "
          +:+ "please include the file " +:+ dq +:+ tagFile +:+ " ***" +:+ dq).

Definition loadActivation (api : IExtensionApi) (modType : option string)
           (modPath : option string) (activator : IDeploymentMethod)
  : prog (list json) :=
  match modPath with
  | None => Ret []
  | Some modPath =>
      let tagFile := tagFile modType modPath in
      let instanceId := instanceId api in
      tagObject ←
        catch (data ← perform (ReadFileAsync tagFile "utf8");
               match readManifest JSON_parse format_1 fuel data with
               | Some r => lift r
               | None => Spin
               end)
              (fun err =>
                 if bool_decide (err_code err = Some "ENOENT")
                 then Ret (Some (emptyManifest instanceId))
                 else Throw (reportRead tagFile err));
      let tagObject := default (emptyManifest instanceId) tagObject in
      if negb (String.eqb (instance tagObject) instanceId)
         && (0 <? Z.of_nat (length (files tagObject)))
      then
        let safe := purgeIsSafe tagObject in
        _ ← queryPurge api modPath (files tagObject) safe;
        _ ← saveActivation modType instanceId modPath [] (id activator);
        Ret []
      else Ret (files tagObject)
  end.

(** The three stages of [loadActivation], by name: the read and its
    [catch] (lines 155-166), the default for [undefined] (lines 167-169) and
    what is done with the manifest (lines 170-185). *)
Definition readTagObject (api : IExtensionApi) (tagFile : string)
  : prog (option IDeploymentManifest) :=
  catch (data ← perform (ReadFileAsync tagFile "utf8");
         match readManifest JSON_parse format_1 fuel data with
         | Some r => lift r
         | None => Spin
         end)
        (fun err =>
           if bool_decide (err_code err = Some "ENOENT")
           then Ret (Some (emptyManifest (instanceId api)))
           else Throw (reportRead tagFile err)).

Definition tagObjectOrEmpty (api : IExtensionApi) (tagObject : option IDeploymentManifest)
  : IDeploymentManifest :=
  default (emptyManifest (instanceId api)) tagObject.

Definition resolveTagObject (api : IExtensionApi) (modType : option string)
           (modPath : string) (activator : IDeploymentMethod)
           (tagObject : IDeploymentManifest) : prog (list json) :=
  if negb (String.eqb (instance tagObject) (instanceId api))
     && (0 <? Z.of_nat (length (files tagObject)))
  then
    let safe := purgeIsSafe tagObject in
    _ ← queryPurge api modPath (files tagObject) safe;
    _ ← saveActivation modType (instanceId api) modPath [] (id activator);
    Ret []
  else Ret (files tagObject).

End Store.

(** ** An environment that computes

    A disk in memory: each path holds a content and a modification time;
    [fault] makes chosen calls fail; the dialog gives a fixed answer. *)

Module Mem.

Record World : Type := mkWorld {
  disk : gmap string (string * Z);
  clock : Z;
  fault : call -> option error;
  dialog : result IDialogResult
}.

Definition ENOENT (syscall path : string) : error :=
  mkError "Error" (Some "ENOENT")
          ("ENOENT: no such file or directory, " +:+ syscall +:+ " '" +:+ path +:+ "'").

Definition EPERM (syscall path : string) : error :=
  mkError "Error" (Some "EPERM")
          ("EPERM: operation not permitted, " +:+ syscall +:+ " '" +:+ path +:+ "'").

Definition withDisk (w : World) (d : gmap string (string * Z)) : World :=
  {| disk := d; clock := clock w + 1; fault := fault w; dialog := dialog w |}.

Definition serve (c : call) : World -> result (answer c) * World :=
  match c as c0 return World -> result (answer c0) * World with
  | ReadFileAsync path _ => fun w =>
      match disk w !! path with
      | Some (content, _) => (Ok content, w)
      | None => (Err (ENOENT "open" path), w)
      end
  | StatAsync path => fun w =>
      match disk w !! path with
      | Some (_, time) => (Ok (mkStats time), w)
      | None => (Err (ENOENT "stat" path), w)
      end
  | UnlinkAsync path => fun w =>
      match disk w !! path with
      | Some _ => (Ok tt, withDisk w (delete path (disk w)))
      | None => (Err (ENOENT "unlink" path), w)
      end
  | RemoveAsync path => fun w => (Ok tt, withDisk w (delete path (disk w)))
  | WriteFileAtomic path data => fun w =>
      (Ok tt, withDisk w (<[path := (data, clock w)]> (disk w)))
  | ShowDialog _ _ _ _ => fun w => (dialog w, w)
  | ShowErrorNotification _ _ _ => fun w => (Ok tt, w)
  end.

Definition handle (c : call) (w : World) : result (answer c) * World :=
  match fault w c with
  | Some e => (Err e, w)
  | None => serve c w
  end.

Definition noFault : call -> option error := fun _ => None.

End Mem.

(** ** Sample collaborators

    Instances of what the store takes from outside, to run it on examples. *)

Module Sample.

Definition q (s : string) : string := dq +:+ s +:+ dq.

(** [JSON.stringify(v, undefined, 2)] for values whose strings need no
    escape. *)
Fixpoint pretty (indent : string) (v : json) : string :=
  match v with
  | JNull => "null"
  | JBool b => if b then "true" else "false"
  | JNum n => show_Z n
  | JStr s => q s
  | JArr [] => "[]"
  | JArr (x :: rest) =>
      let inner := indent +:+ "  " in
      "[" +:+ nl +:+ inner +:+ pretty inner x
      +:+ (fix items (l : list json) : string :=
             match l with
             | [] => ""
             | y :: l' => "," +:+ nl +:+ inner +:+ pretty inner y +:+ items l'
             end) rest
      +:+ nl +:+ indent +:+ "]"
  | JObj [] => "{}"
  | JObj ((k, x) :: rest) =>
      let inner := indent +:+ "  " in
      "{" +:+ nl +:+ inner +:+ q k +:+ ": " +:+ pretty inner x
      +:+ (fix members (l : list (string * json)) : string :=
             match l with
             | [] => ""
             | (k', y) :: l' =>
                 "," +:+ nl +:+ inner +:+ q k' +:+ ": " +:+ pretty inner y +:+ members l'
             end) rest
      +:+ nl +:+ indent +:+ "}"
  end.

Definition member {A} (k : string) (f : A -> json) (x : option A)
  : list (string * json) :=
  match x with
  | Some a => [(k, f a)]
  | None => []
  end.

(** The object a [ParsedManifest] stands for, keys in the order
    [saveActivation] writes them. *)
Definition toJson (p : ParsedManifest) : json :=
  JObj (member "instance" JStr (p_instance p)
        ++ member "version" JNum (p_version p)
        ++ member "deploymentMethod" JStr (p_deploymentMethod p)
        ++ member "files" (fun v => v) (p_files p)).

Definition text (p : ParsedManifest) : string := pretty "" (toJson p).

Definition stringify (m : IDeploymentManifest) : string :=
  text {| p_version := Some (version m);
          p_instance := Some (instance m);
          p_deploymentMethod := deploymentMethod m;
          p_files := Some (JArr (files m)) |}.

Definition file (relPath source : string) (time : Z) : json :=
  JObj [("relPath", JStr relPath); ("source", JStr source); ("time", JNum time)].

(** A manifest another instance left, from before [deploymentMethod] was
    recorded. *)
Definition legacy : ParsedManifest :=
  {| p_version := Some 1;
     p_instance := Some "other";
     p_deploymentMethod := None;
     p_files := Some (JArr [file "a.esp" "modA" 100; file "b.esp" "modB" 200]) |}.

(** The same with [files] edited to [null]. *)
Definition broken : ParsedManifest :=
  {| p_version := Some 1;
     p_instance := Some "other";
     p_deploymentMethod := None;
     p_files := Some JNull |}.

(** A manifest of another instance with records to drop. *)
Definition damaged : ParsedManifest :=
  {| p_version := Some 1;
     p_instance := Some "other";
     p_deploymentMethod := Some "hardlink_activator";
     p_files := Some (JArr [file "a.esp" "modA" 100;
                            JNull;
                            JObj [("relPath", JStr "c.esp"); ("time", JNum 5)];
                            file "b.esp" "modB" 200;
                            JObj [("relPath", JStr "d.esp"); ("source", JNull);
                                  ("time", JNum 7)]]) |}.

(** What [saveActivation] writes for instance ["me"] and no files. *)
Definition cleared : ParsedManifest :=
  {| p_version := Some 1;
     p_instance := Some "me";
     p_deploymentMethod := Some "hardlink_activator";
     p_files := Some (JArr []) |}.

(** A manifest of another instance that deployed by moving the files. *)
Definition moved : ParsedManifest :=
  {| p_version := Some 1;
     p_instance := Some "other";
     p_deploymentMethod := Some "move_activator";
     p_files := Some (JArr [file "a.esp" "modA" 100]) |}.

Definition catalogue : list ParsedManifest := [legacy; broken; damaged; cleared; moved].

(** [JSON.parse] as far as the examples need it: a text of the catalogue
    parses to its manifest. The examples give it no other text but one that
    is no JSON, for which it throws. *)
Definition parse (data : string) : result ParsedManifest :=
  match List.find (fun p => String.eqb (text p) data) catalogue with
  | Some p => Ok p
  | None => Err (mkError "SyntaxError" None "Unexpected token in JSON")
  end.

Definition stamp (v : Z) : ManifestFormat :=
  fun input => Ok {| p_version := Some v;
                     p_instance := p_instance input;
                     p_deploymentMethod := p_deploymentMethod input;
                     p_files := p_files input |}.

(** A format function for version 1: the input, stamped with version 1. *)
Definition format_1 : ManifestFormat := stamp 1.

Definition path_join (dir name : string) : string := dir +:+ "/" +:+ name.

Definition hardlink : IDeploymentMethod :=
  {| id := "hardlink_activator"; isFallbackPurgeSafe := true |}.

Definition move : IDeploymentMethod :=
  {| id := "move_activator"; isFallbackPurgeSafe := false |}.

Definition getActivator (key : string) : option IDeploymentMethod :=
  List.find (fun m => String.eqb (id m) key) [hardlink; move].

(** No translation. *)
Definition api : IExtensionApi := {| translate := fun s => s; instanceId := "me" |}.

Definition manifestPath : string := "/game/vortex.deployment.json".

(** The game directory after the other instance deployed [legacy]; the
    user has changed [b.esp] since. A second directory holds [moved], a
    third an empty manifest file. *)
Definition deployed : gmap string (string * Z) :=
  {[ manifestPath := (text legacy, 300);
     "/game/a.esp" := ("A", 100);
     "/game/b.esp" := ("B, edited", 250);
     "/moved/vortex.deployment.json" := (text moved, 300);
     "/moved/a.esp" := ("A", 100);
     "/blank/vortex.deployment.json" := ("", 300) ]}.

Definition world (answer : string) (fault : call -> option error) : Mem.World :=
  {| Mem.disk := deployed;
     Mem.clock := 1000;
     Mem.fault := fault;
     Mem.dialog := Ok (mkDialogResult answer) |}.

(** Faults: the manifest cannot be read; the manifest cannot be removed;
    [a.esp] cannot be unlinked. *)
Definition readDenied : call -> option error :=
  fun c => match c with
           | ReadFileAsync path _ => Some (Mem.EPERM "open" path)
           | _ => None
           end.

Definition removeDenied : call -> option error :=
  fun c => match c with
           | RemoveAsync path => Some (Mem.EPERM "unlink" path)
           | _ => None
           end.

Definition unlinkDenied : call -> option error :=
  fun c => match c with
           | UnlinkAsync path => Some (Mem.EPERM "unlink" path)
           | _ => None
           end.

(** What [readManifest] returns for the sample manifests. *)
Definition legacyManifest : IDeploymentManifest :=
  {| version := 1;
     instance := "other";
     deploymentMethod := None;
     files := [file "a.esp" "modA" 100; file "b.esp" "modB" 200] |}.

Definition movedManifest : IDeploymentManifest :=
  {| version := 1;
     instance := "other";
     deploymentMethod := Some "move_activator";
     files := [file "a.esp" "modA" 100] |}.

(** The answer for the second file comes before the one for the first. *)
Definition schedule : list nat := [1; 0; 0]%nat.

Definition load (fuel : nat) (modPath : option string) : prog (list json) :=
  loadActivation parse stringify format_1 path_join getActivator fuel schedule
                 api None modPath hardlink.

Definition save (activation : list json) : prog unit :=
  saveActivation parse stringify path_join None "me" "/game" activation
                 "hardlink_activator".

End Sample.

(** ** Vocabulary of the properties *)

(** A record as the data model wants it: not [null], with its three
    properties there and not [null]. *)
Definition hasProperty (file : json) (k : string) : Prop :=
  exists v, prop file k = Some v /\ v <> JNull.

Definition validRecord (file : json) : Prop :=
  file <> JNull
  /\ hasProperty file "relPath"
  /\ hasProperty file "source"
  /\ hasProperty file "time".

#[global] Instance hasProperty_dec (file : json) (k : string) : Decision (hasProperty file k).
Proof.
  unfold hasProperty. destruct (prop file k) as [v | ].
  - destruct v;
      first [ right; intros (v' & Hv & Hnull); injection Hv as <-; apply Hnull; reflexivity
            | left; eexists; split; [reflexivity | discriminate] ].
  - right. intros (v & Hv & _). discriminate.
Defined.

#[global] Instance validRecord_dec (file : json) : Decision (validRecord file).
Proof.
  unfold validRecord. destruct file;
    first [ right; intros [Hnull _]; apply Hnull; reflexivity
          | apply and_dec; [left; discriminate | apply _] ].
Defined.

(** [only P p]: whatever the answers, [p] makes no call outside [P]. *)
Fixpoint only {A} (P : call -> Prop) (p : prog A) : Prop :=
  match p with
  | Vis c k => P c /\ forall r, only P (k r)
  | _ => True
  end.

(** [onlyThen P Q p]: moreover, what [p] is fulfilled with is in [Q]. *)
Fixpoint onlyThen {A} (P : call -> Prop) (Q : A -> Prop) (p : prog A) : Prop :=
  match p with
  | Ret a => Q a
  | Vis c k => P c /\ forall r, onlyThen P Q (k r)
  | _ => True
  end.

Definition slotOnly {B} (P : call -> Prop) (s : slot B) : Prop :=
  match s with
  | Running p => only P p
  | Settled _ => True
  end.

Definition isDialog (c : call) : bool :=
  match c with
  | ShowDialog _ _ _ _ => true
  | _ => false
  end.

Definition dialogs (calls : list call) : nat := length (List.filter isDialog calls).

(** The dialog [queryPurge] opens. *)
Definition purgeDialog (api : IExtensionApi) (safe : bool) : call :=
  ShowDialog "info" (translate api "Purge files from different instance?")
             (if safe then queryPurgeTextSafe (translate api)
              else queryPurgeTextUnsafe (translate api))
             ["Cancel"; "Purge"].

Definition isStatOrUnlink (c : call) : Prop :=
  match c with
  | StatAsync _ | UnlinkAsync _ => True
  | _ => False
  end.

(** What the [catch] of the mapper makes of an error. *)
Definition absorb (e : error) : result unit :=
  if bool_decide (err_code e = Some "ENOENT") then Ok tt else Err e.

Definition hasPath (file : json) : Prop :=
  exists relPath, prop file "relPath" = Some (JStr relPath).

(** [path] is where the recorded [file] was deployed under [basePath]. *)
Definition deployedAt (path_join : string -> string -> string) (basePath : string)
           (file : json) (path : string) : Prop :=
  exists relPath,
    prop file "relPath" = Some (JStr relPath) /\ path = path_join basePath relPath.

(** What a call was answered, as far as the store looks at the answer. *)
Inductive observed : Type :=
| Failed (e : error)
| Found (stats : Stats)
| Succeeded.

Definition observe (c : call) : result (answer c) -> observed :=
  match c as c0 return result (answer c0) -> observed with
  | StatAsync _ => fun r => match r with
                            | Ok stats => Found stats
                            | Err e => Failed e
                            end
  | _ => fun r => match r with
                  | Ok _ => Succeeded
                  | Err e => Failed e
                  end
  end.

(** A call of the history failed with [e], and not because the file was
    not found. *)
Definition failed (history : list (call * observed)) (e : error) : Prop :=
  (exists c, (c, Failed e) ∈ history) /\ err_code e <> Some "ENOENT".

(** The [time] a record holds, when it is a number. *)
Definition recordedTime (file : json) : option Z :=
  match prop file "time" with
  | Some (JNum t) => Some t
  | _ => None
  end.

(** The unlink that the answer [r] to the stat of a recorded file calls
    for: the file is there, with the modification time recorded. *)
Definition unlinkDue (path : string) (file : json) (r : result Stats) : option call :=
  match r with
  | Ok stats =>
      if bool_decide (recordedTime file = Some (mtime stats))
      then Some (UnlinkAsync path)
      else None
  | Err _ => None
  end.

Fixpoint dueUnlinks (paths : list string) (purged : list json)
         (answers : list (result Stats)) : list call :=
  match paths, purged, answers with
  | path :: paths', file :: purged', r :: answers' =>
      option_list (unlinkDue path file r) ++ dueUnlinks paths' purged' answers'
  | _, _, _ => []
  end.

(** The entries of the history for stats answered in turn. *)
Fixpoint statEntries (paths : list string) (answers : list (result Stats))
  : list (call * observed) :=
  match paths, answers with
  | path :: paths', r :: answers' =>
      (StatAsync path, observe (StatAsync path) r) :: statEntries paths' answers'
  | _, _ => []
  end.

(** What the promise of a recorded file goes on with when its stat is
    answered: the rest of [purgeAt]. *)
Definition afterStat (path : string) (file : json) (r : result Stats) : prog unit :=
  catch (bind (lift r) (fun stats =>
           if sameTime stats file then perform (UnlinkAsync path) else Ret tt))
        (fun err =>
           if negb (bool_decide (err_code err = Some "ENOENT"))
           then Throw err
           else Ret tt).

(** What that promise settles as when its last call is answered. *)
Definition absorbed {A} (r : result A) : result unit :=
  match r with
  | Ok _ => Ok tt
  | Err e => absorb e
  end.

(** The promises of the files once their stats are answered. *)
Fixpoint stattedPool (paths : list string) (purged : list json)
         (answers : list (result Stats)) : list (slot unit) :=
  match paths, purged, answers with
  | path :: paths', file :: purged', r :: answers' =>
      Running (afterStat path file r) :: stattedPool paths' purged' answers'
  | _, _, _ => []
  end.

(** A promise of the pool that is at its last call, or past it. *)
Definition lastCall (s : slot unit) : Prop :=
  match s with
  | Running (Vis c k) => forall r, k r = lift (absorbed r)
  | Running Spin => False
  | _ => True
  end.

(** What holds of the pool of [fallbackPurge] at every moment: a promise
    about to be rejected is so for a failure on record, so is the rejection
    of the array promise, and a failure on record has rejected the array
    promise or is about to. *)
Definition poolInv (pool : list (slot unit)) (first : option error)
           (log : list (call * observed)) : Prop :=
  Forall lastCall pool
  /\ (forall e, Running (Throw e) ∈ pool -> failed log e)
  /\ (forall e, first = Some e -> failed log e)
  /\ ((exists e, failed log e) -> first <> None \/ exists e, Running (Throw e) ∈ pool)
  /\ (forall e, Settled (Err e) ∈ pool -> first <> None).

(** The call the next delivery to [s] makes. *)
Definition nextCall {B} (s : slot B) : option call :=
  match s with
  | Running (Vis c _) => Some c
  | _ => None
  end.


Section Vocabulary.

Context {W : Type} (handle : forall c : call, W -> result (answer c) * W).
Variable JSON_parse : string -> result ParsedManifest.
Variable JSON_stringify : IDeploymentManifest -> string.
Variable path_join : string -> string -> string.
Variable getActivator : string -> option IDeploymentMethod.

(** The order in which the answers to the calls of the purge come in. *)
Variable schedule : list nat.

(** The environment, keeping a record of each call with its answer. *)
Definition logging (c : call) (s : W * list (call * observed))
  : result (answer c) * (W * list (call * observed)) :=
  let '(r, w1) := handle c s.1 in (r, (w1, s.2 ++ [(c, observe c r)])).

(** The calls a program makes in the environment, each with what it was
    answered. *)
Definition history_of {A} (p : prog A) (w : W) : list (call * observed) :=
  (world_of logging p (w, [])).2.

(** The answers to the stats of the paths, made one after the other. *)
Fixpoint statAll (paths : list string) (w : W) : list (result Stats) * W :=
  match paths with
  | [] => ([], w)
  | path :: rest =>
      let '(r, w1) := handle (StatAsync path) w in
      let '(rs, w2) := statAll rest w1 in
      (r :: rs, w2)
  end.

(** What follows the answer to the dialog. *)
Definition afterDialog (api : IExtensionApi) (modType : option string)
           (modPath : string) (activator : IDeploymentMethod)
           (purged : list json) (r : result IDialogResult) : prog (list json) :=
  bind (bind (lift r) (fun result =>
          if String.eqb (action result) "Purge"
          then catch (fallbackPurge path_join schedule modPath purged)
                     (fun err =>
                        bind (perform (ShowErrorNotification "Purging failed" err false))
                             (fun _ => Throw UserCanceled))
          else Throw UserCanceled))
       (fun _ =>
          bind (saveActivation JSON_parse JSON_stringify path_join modType (instanceId api)
                      modPath [] (id activator))
               (fun _ => Ret [])).

(** The recorded method is known and not marked safe for a fallback
    purge. *)
Definition knownUnsafe (m : IDeploymentManifest) : Prop :=
  exists method previous,
    deploymentMethod m = Some method
    /\ getActivator method = Some previous
    /\ isFallbackPurgeSafe previous = false.

End Vocabulary.

(** ** Further vocabulary *)

(** A manifest seen as the object it is, before any check. *)
Definition asParsed (m : IDeploymentManifest) : ParsedManifest :=
  {| p_version := Some (version m);
     p_instance := Some (instance m);
     p_deploymentMethod := deploymentMethod m;
     p_files := Some (JArr (files m)) |}.

Definition isWrite (c : call) : bool :=
  match c with
  | WriteFileAtomic _ _ => true
  | _ => false
  end.

Definition isRemove (c : call) : bool :=
  match c with
  | RemoveAsync _ => true
  | _ => false
  end.

(** [c] is the stat or the unlink of the path of a recorded file. *)
Definition purgeCallOf (path_join : string -> string -> string) (basePath : string)
           (purged : list json) (c : call) : Prop :=
  exists file relPath,
    file ∈ purged
    /\ prop file "relPath" = Some (JStr relPath)
    /\ (c = StatAsync (path_join basePath relPath)
        \/ c = UnlinkAsync (path_join basePath relPath)).

(** [path] is where a recorded file was deployed, and the disk holds there
    a file with the recorded modification time. *)
Definition unchangedSince (path_join : string -> string -> string) (basePath : string)
           (purged : list json) (disk : gmap string (string * Z)) (path : string) : Prop :=
  exists file relPath content time,
    file ∈ purged
    /\ prop file "relPath" = Some (JStr relPath)
    /\ path = path_join basePath relPath
    /\ disk !! path = Some (content, time)
    /\ prop file "time" = Some (JNum time).

(** [atMostOne P p]: whatever the answers, [p] makes at most one call in
    [P]. *)
Fixpoint atMostOne {A} (P : call -> bool) (p : prog A) : Prop :=
  match p with
  | Vis c k =>
      if P c
      then forall r, only (fun c' => P c' = false) (k r)
      else forall r, atMostOne P (k r)
  | _ => True
  end.

(** An environment in memory in which no call is made to fail. *)
Definition faultless (w : Mem.World) : Prop := forall c, Mem.fault w c = None.

(** A second catalogue of texts, with a manifest of the current instance. *)
Module Saved.

Definition manifest : IDeploymentManifest :=
  {| version := CURRENT_VERSION;
     instance := "me";
     deploymentMethod := Some "hardlink_activator";
     files := [Sample.file "a.esp" "modA" 100; Sample.file "b.esp" "modB" 200] |}.

(** A manifest of a later format. *)
Definition newer : ParsedManifest :=
  {| p_version := Some 2;
     p_instance := Some "me";
     p_deploymentMethod := Some "hardlink_activator";
     p_files := Some (JArr []) |}.

(** A manifest without [files]. *)
Definition bare : ParsedManifest :=
  {| p_version := Some 1;
     p_instance := Some "me";
     p_deploymentMethod := None;
     p_files := None |}.

(** A manifest that declares version 0. *)
Definition unversioned : ParsedManifest :=
  {| p_version := Some 0;
     p_instance := Some "me";
     p_deploymentMethod := None;
     p_files := Some (JArr []) |}.

Definition catalogue : list ParsedManifest :=
  Sample.catalogue ++ [asParsed manifest; newer; bare; unversioned].

(** [JSON.parse] on this catalogue, as [Sample.parse] on its own. *)
Definition parse (data : string) : result ParsedManifest :=
  match List.find (fun p => String.eqb (Sample.text p) data) catalogue with
  | Some p => Ok p
  | None => Err (mkError "SyntaxError" None "Unexpected token in JSON")
  end.

Definition load (modPath : string) : prog (list json) :=
  loadActivation parse Sample.stringify Sample.format_1 Sample.path_join
                 Sample.getActivator 2 Sample.schedule Sample.api None (Some modPath)
                 Sample.hardlink.

Definition save (activation : list json) : prog unit :=
  saveActivation parse Sample.stringify Sample.path_join None "me" "/game" activation
                 "hardlink_activator".

(** A directory with the manifest of the current instance, one with a
    manifest that is no JSON, one with a manifest of a later format. *)
Definition disk : gmap string (string * Z) :=
  {[ "/mine/vortex.deployment.json" := (Sample.stringify manifest, 300);
     "/mine/a.esp" := ("A", 100);
     "/junk/vortex.deployment.json" := ("{ no json", 300);
     "/newer/vortex.deployment.json" := (Sample.text newer, 300) ]}.

Definition world (fault : call -> option error) (dialog : result IDialogResult)
  : Mem.World :=
  {| Mem.disk := disk; Mem.clock := 1000; Mem.fault := fault; Mem.dialog := dialog |}.

Definition gameWorld (fault : call -> option error) (dialog : result IDialogResult)
  : Mem.World :=
  {| Mem.disk := Sample.deployed; Mem.clock := 1000;
     Mem.fault := fault; Mem.dialog := dialog |}.

Definition writeDenied : call -> option error :=
  fun c => match c with
           | WriteFileAtomic path _ => Some (Mem.EPERM "rename" path)
           | _ => None
           end.

End Saved.

(** ** Programs and their runs *)

Section RunLemmas.

Context {W : Type} (handle : forall c : call, W -> result (answer c) * W).

Lemma run_bind {A B} (p : prog A) (f : A -> prog B) (w : W) :
  run handle (bind p f) w =
  match run handle p w with
  | (calls, w1, Some (Ok a)) =>
      let '(calls2, w2, out) := run handle (f a) w1 in (calls ++ calls2, w2, out)
  | (calls, w1, Some (Err e)) => (calls, w1, Some (Err e))
  | (calls, w1, None) => (calls, w1, None)
  end.
Proof.
  revert w. induction p as [a | e | | c k IH]; intros w; simpl.
  - destruct (run handle (f a) w) as [[calls2 w2] out]. reflexivity.
  - reflexivity.
  - reflexivity.
  - destruct (handle c w) as [r w1]. rewrite IH.
    destruct (run handle (k r) w1) as [[calls w2] [[a | e] | ]]; try reflexivity.
    destruct (run handle (f a) w2) as [[calls2 w3] out]. reflexivity.
Qed.

Lemma run_catch {A} (p : prog A) (h : error -> prog A) (w : W) :
  run handle (catch p h) w =
  match run handle p w with
  | (calls, w1, Some (Err e)) =>
      let '(calls2, w2, out) := run handle (h e) w1 in (calls ++ calls2, w2, out)
  | other => other
  end.
Proof.
  revert w. induction p as [a | e | | c k IH]; intros w; simpl.
  - reflexivity.
  - destruct (run handle (h e) w) as [[calls2 w2] out]. reflexivity.
  - reflexivity.
  - destruct (handle c w) as [r w1]. rewrite IH.
    destruct (run handle (k r) w1) as [[calls w2] [[a | e] | ]]; try reflexivity.
    destruct (run handle (h e) w2) as [[calls2 w3] out]. reflexivity.
Qed.

Lemma run_perform (c : call) (w : W) :
  run handle (perform c) w =
  ([c], (handle c w).2, Some (handle c w).1).
Proof.
  unfold perform. simpl. destruct (handle c w) as [[a | e] w1]; reflexivity.
Qed.

End RunLemmas.

Lemma only_bind {A B} (P : call -> Prop) (p : prog A) (f : A -> prog B) :
  only P p -> (forall a, only P (f a)) -> only P (bind p f).
Proof.
  intros Hp Hf. induction p as [a | e | | c k IH]; simpl in *; auto.
  destruct Hp as [Hc Hk]. split; auto.
Qed.

Lemma only_catch {A} (P : call -> Prop) (p : prog A) (h : error -> prog A) :
  only P p -> (forall e, only P (h e)) -> only P (catch p h).
Proof.
  intros Hp Hh. induction p as [a | e | | c k IH]; simpl in *; auto.
  destruct Hp as [Hc Hk]. split; auto.
Qed.

Lemma only_lift {A} (P : call -> Prop) (r : result A) : only P (lift r).
Proof. destruct r; exact I. Qed.

Lemma only_perform (P : call -> Prop) (c : call) : P c -> only P (perform c).
Proof. intros Hc. split; [exact Hc | intros r; apply only_lift]. Qed.

Lemma only_weaken {A} (P Q : call -> Prop) (p : prog A) :
  (forall c, P c -> Q c) -> only P p -> only Q p.
Proof.
  intros HPQ. induction p as [a | e | | c k IH]; simpl; auto.
  intros [Hc Hk]. split; auto.
Qed.

Lemma only_calls {A W} (handle : forall c : call, W -> result (answer c) * W)
      (P : call -> Prop) (p : prog A) (w : W) :
  only P p -> Forall P (calls_of handle p w).
Proof.
  unfold calls_of. revert w.
  induction p as [a | e | | c k IH]; intros w Hp; simpl; try constructor.
  destruct Hp as [Hc Hk]. destruct (handle c w) as [r w1].
  specialize (IH r w1 (Hk r)).
  destruct (run handle (k r) w1) as [[calls w2] out]. simpl in *.
  constructor; assumption.
Qed.

Example sample_text : Sample.text Sample.broken =
  "{" +:+ nl +:+
  "  " +:+ dq +:+ "instance" +:+ dq +:+ ": " +:+ dq +:+ "other" +:+ dq +:+ "," +:+ nl +:+
  "  " +:+ dq +:+ "version" +:+ dq +:+ ": 1," +:+ nl +:+
  "  " +:+ dq +:+ "files" +:+ dq +:+ ": null" +:+ nl +:+
  "}".
Proof. reflexivity. Qed.


(** ** [repairManifest] *)

Lemma present_hasProperty (file : json) (k : string) :
  present (prop file k) = true <-> hasProperty file k.
Proof.
  unfold hasProperty. destruct (prop file k) as [v | ]; simpl.
  - split.
    + intros Hp. exists v. split; [reflexivity | ]. intros ->. discriminate.
    + intros (v' & Hv & Hnull). inversion Hv; subst. destruct v'; auto.
  - split; [discriminate | intros (v & Hv & _); discriminate].
Qed.

Lemma keeps_validRecord (file : json) : keeps file = true <-> validRecord file.
Proof.
  unfold validRecord. rewrite <- !present_hasProperty. split.
  - intros Hk.
    assert (Hfields : present (prop file "relPath") && present (prop file "source")
                      && present (prop file "time") = true)
      by (destruct file; solve [discriminate Hk | exact Hk]).
    apply andb_true_iff in Hfields as [Hfields Htime].
    apply andb_true_iff in Hfields as [HrelPath Hsource].
    repeat split; try assumption. intros ->. discriminate Hk.
  - intros (Hnull & HrelPath & Hsource & Htime).
    unfold keeps. rewrite HrelPath, Hsource, Htime.
    destruct file; solve [contradiction | reflexivity].
Qed.

Lemma repairStep_fold (items acc : list json) :
  fold_left repairStep items acc = acc ++ filter validRecord items.
Proof.
  revert acc. induction items as [ | file items IH]; intros acc; simpl.
  - rewrite app_nil_r. reflexivity.
  - rewrite IH. unfold repairStep. rewrite filter_cons.
    destruct (keeps file) eqn:Hk.
    + rewrite decide_True by (apply keeps_validRecord, Hk).
      rewrite <- app_assoc. reflexivity.
    + rewrite decide_False; [reflexivity | ].
      intros Hv. apply keeps_validRecord in Hv. congruence.
Qed.

Lemma repairManifest_array (input : ParsedManifest) (items : list json) :
  p_files input = Some (JArr items) ->
  exists m, repairManifest input = Ok m /\ files m = filter validRecord items.
Proof.
  intros Hf. unfold repairManifest. rewrite Hf. simpl.
  eexists. split; [reflexivity | ]. simpl. apply (repairStep_fold items []).
Qed.

(** [repairManifest] returns exactly when [files] is an array. *)
Lemma repairManifest_returns_iff (input : ParsedManifest) :
  (exists m, repairManifest input = Ok m) <-> (exists items, p_files input = Some (JArr items)).
Proof.
  split.
  - intros [m Hm]. unfold repairManifest in Hm.
    destruct (p_files input) as [[ | | | | items | ] | ]; simpl in Hm; try discriminate.
    exists items. reflexivity.
  - intros [items Hi]. destruct (repairManifest_array input items Hi) as (m & Hm & _).
    exists m. exact Hm.
Qed.

(** C8: when the [files] array of a manifest holds an invalid record,
    [repairManifest] returns the manifest with exactly the valid records, in
    their original order: the result is the sub-list of the valid ones, and
    it is strictly shorter than the input. *)
Theorem repair_removes_exactly_invalid (input : ParsedManifest) (items : list json) :
  p_files input = Some (JArr items) ->
  (exists file, file ∈ items /\ ~ validRecord file) ->
  exists m, repairManifest input = Ok m
    /\ files m = filter validRecord items
    /\ sublist (files m) items
    /\ (forall file, file ∈ files m <-> file ∈ items /\ validRecord file)
    /\ (length (files m) < length items)%nat.
Proof.
  intros Hf (bad & Hin & Hbad).
  destruct (repairManifest_array input items Hf) as (m & Hm & Hfiles).
  exists m. rewrite Hfiles. split; [exact Hm | ].
  split; [reflexivity | ]. split; [ | split].
  - apply sublist_filter.
  - intros file. rewrite list_elem_of_filter. tauto.
  - clear Hfiles Hm Hf. induction items as [ | x items IH].
    + inversion Hin.
    + rewrite filter_cons. simpl. destruct (decide (validRecord x)) as [Hx | Hx].
      * simpl. apply -> Nat.succ_lt_mono. apply IH.
        inversion Hin; subst; [contradiction | assumption].
      * pose proof (length_filter validRecord items). lia.
Qed.

Lemma repair_removes_exactly_invalid_witness :
  exists m, repairManifest Sample.damaged = Ok m
    /\ files m = [Sample.file "a.esp" "modA" 100; Sample.file "b.esp" "modB" 200].
Proof.
  destruct (repair_removes_exactly_invalid Sample.damaged
              [Sample.file "a.esp" "modA" 100;
               JNull;
               JObj [("relPath", JStr "c.esp"); ("time", JNum 5)];
               Sample.file "b.esp" "modB" 200;
               JObj [("relPath", JStr "d.esp"); ("source", JNull); ("time", JNum 7)]])
    as (m & Hm & Hfiles & _).
  - reflexivity.
  - exists JNull. split.
    + apply list_elem_of_In. simpl. tauto.
    + intros [Hnull _]. apply Hnull. reflexivity.
  - exists m. split; [exact Hm | ]. rewrite Hfiles. reflexivity.
Defined.

(** C3: [repairManifest] is not total. On a manifest whose [files] is
    [null] the call of [reduce] throws a [TypeError], and so does
    [readManifest] on the text of that manifest: the guard of lines 72-74
    covers [undefined] only. *)
Theorem repair_throws_on_files_null :
  repairManifest Sample.broken
  = Err (TypeError "Cannot read property 'reduce' of null")
  /\ readManifest Sample.parse Sample.format_1 2 (Sample.text Sample.broken)
     = Some (Err (TypeError "Cannot read property 'reduce' of null")).
Proof. split; reflexivity. Qed.

(** ** The upgrade loop *)

Section Upgrade.

Variable JSON_parse : string -> result ParsedManifest.
Variable format_1 : ManifestFormat.

Lemma upgradeLoop_exit (fuel : nat) (lastVersion : option Z) (parsed : ParsedManifest) :
  num_lt lastVersion CURRENT_VERSION = false ->
  upgradeLoop format_1 fuel lastVersion parsed = Some (Ok parsed).
Proof. intros Hlt. destruct fuel; simpl; rewrite Hlt; reflexivity. Qed.

Lemma upgradeLoop_step (fuel : nat) (lastVersion : option Z) (parsed : ParsedManifest) :
  upgradeLoop format_1 (S fuel) lastVersion parsed =
  if num_lt lastVersion CURRENT_VERSION then
    match formats format_1 (num_or (p_version parsed) 1) with
    | None => Some (Err (TypeError "formats[(parsed.version || 1)] is not a function"))
    | Some upgrade =>
        match upgrade parsed with
        | Err e => Some (Err e)
        | Ok parsed' =>
            if num_eq (p_version parsed') lastVersion
               && num_lt (p_version parsed') CURRENT_VERSION
            then Some (Err (unsupportedUpgrade (p_version parsed')))
            else upgradeLoop format_1 fuel (p_version parsed') parsed'
        end
    end
  else Some (Ok parsed).
Proof. reflexivity. Qed.

(** A second iteration finds no function: after the first, the object
    holds the version the loop compares, and the registry has the key 1
    only. *)
Lemma upgradeLoop_no_entry (fuel : nat) (v : Z) (parsed : ParsedManifest) :
  p_version parsed = Some v -> v < 0 ->
  upgradeLoop format_1 (S fuel) (Some v) parsed
  = Some (Err (TypeError "formats[(parsed.version || 1)] is not a function")).
Proof.
  intros Hv Hneg. simpl. rewrite Hv. unfold CURRENT_VERSION, formats. simpl.
  destruct (Z.ltb_spec v 1) as [_ | ?]; [ | lia].
  destruct (Z.eqb_spec v 0) as [? | _]; [lia | ].
  destruct (Z.eqb_spec v 1) as [? | _]; [lia | ]. reflexivity.
Qed.

(** The loop of [readManifest] ends within two iterations. *)
Lemma upgradeLoop_terminates (fuel : nat) (parsed : ParsedManifest) :
  (2 <= fuel)%nat ->
  upgradeLoop format_1 fuel (Some 0) parsed <> None
  /\ upgradeLoop format_1 fuel (Some 0) parsed = upgradeLoop format_1 2 (Some 0) parsed.
Proof.
  intros Hfuel. destruct fuel as [ | [ | fuel]]; try lia.
  rewrite (upgradeLoop_step (S fuel)), (upgradeLoop_step 1).
  change (num_lt (Some 0) CURRENT_VERSION) with true. cbv iota.
  destruct (formats format_1 (num_or (p_version parsed) 1)) as [upgrade | ];
    [ | split; [discriminate | reflexivity]].
  destruct (upgrade parsed) as [parsed' | e]; [ | split; [discriminate | reflexivity]].
  destruct (num_eq (p_version parsed') (Some 0) && num_lt (p_version parsed') CURRENT_VERSION)
    eqn:Hstall; [split; [discriminate | reflexivity] | ].
  destruct (num_lt (p_version parsed') CURRENT_VERSION) eqn:Hlt.
  - destruct (p_version parsed') as [v | ] eqn:Hv; [ | discriminate].
    simpl in Hlt, Hstall. rewrite ?Hlt, andb_true_r in Hstall.
    apply Z.ltb_lt in Hlt. apply Z.eqb_neq in Hstall. unfold CURRENT_VERSION in Hlt.
    rewrite !upgradeLoop_no_entry by (assumption || lia).
    split; [discriminate | reflexivity].
  - rewrite !upgradeLoop_exit by assumption. split; [discriminate | reflexivity].
Qed.

(** [readManifest] returns or throws within two iterations of its loop,
    and more fuel changes nothing. *)
Lemma readManifest_terminates (fuel : nat) (data : string) :
  (2 <= fuel)%nat ->
  readManifest JSON_parse format_1 fuel data <> None
  /\ readManifest JSON_parse format_1 fuel data = readManifest JSON_parse format_1 2 data.
Proof.
  intros Hfuel. unfold readManifest.
  destruct (String.eqb data ""); [split; [discriminate | reflexivity] | ].
  destruct (JSON_parse data) as [parsed | e]; [ | split; [discriminate | reflexivity]].
  destruct (upgradeLoop_terminates fuel parsed Hfuel) as [_ ->].
  split; [ | reflexivity].
  pose proof (proj1 (upgradeLoop_terminates 2 parsed (le_n 2))) as Hsome.
  destruct (upgradeLoop format_1 2 (Some 0) parsed) as [[upgraded | e] | ];
    [ | discriminate | contradiction].
  destruct (repairManifest (defaultFiles upgraded)); discriminate.
Qed.


End Upgrade.


(** ** [loadActivation] and [saveActivation] *)

Section StoreProps.

Context {W : Type} (handle : forall c : call, W -> result (answer c) * W).

Variable JSON_parse : string -> result ParsedManifest.
Variable JSON_stringify : IDeploymentManifest -> string.
Variable format_1 : ManifestFormat.
Variable path_join : string -> string -> string.
Variable getActivator : string -> option IDeploymentMethod.
Variable fuel : nat.
Variable schedule : list nat.

Local Abbreviation load :=
  (loadActivation JSON_parse JSON_stringify format_1 path_join getActivator fuel schedule).
Local Abbreviation save := (saveActivation JSON_parse JSON_stringify path_join).
Local Abbreviation manifestFile := (tagFile path_join).

(** C10: without a deployment path [loadActivation] resolves to the empty
    list at once: no call is made, so no file is read and no dialog shown,
    and the environment is left as it was. *)
Theorem load_without_path (api : IExtensionApi) (modType : option string)
        (activator : IDeploymentMethod) (w : W) :
  run handle (load api modType None activator) w = ([], w, Some (Ok [])).
Proof. reflexivity. Qed.

(** C9: [loadActivation] is its three stages, one after the other. Let the
    read of the manifest file have the outcome [r].
    - [r] is a not-found error: the first stage yields a fresh manifest, of
      the current version, stamped with the id of the current instance, with
      no files; the load goes on with it and resolves to the empty list.
    - [r] is the empty text: the first stage yields [undefined], for which
      the second stage puts the same fresh manifest; the load goes on with
      it and resolves to the empty list, whatever the loop bound.
    - [r] is any other error: the load is rejected with an [Error] whose
      message is the message of [r], a full stop, a line break and the
      request to include the manifest file, named by its path.
    In each case the read is the only call made. *)
Theorem load_absent_empty_unreadable (api : IExtensionApi) (modType : option string)
        (modPath : string) (activator : IDeploymentMethod)
        (w w1 : W) (r : result string) :
  handle (ReadFileAsync (manifestFile modType modPath) "utf8") w = (r, w1) ->
  let file := manifestFile modType modPath in
  let read := ReadFileAsync file "utf8" in
  let fresh := {| version := CURRENT_VERSION;
                  instance := instanceId api;
                  deploymentMethod := None;
                  files := [] |} in
  load api modType (Some modPath) activator
  = bind (readTagObject JSON_parse format_1 fuel api file)
         (fun tagObject =>
            resolveTagObject JSON_parse JSON_stringify path_join getActivator schedule
                             api modType modPath activator
                             (tagObjectOrEmpty api tagObject))
  /\ (forall e, r = Err e -> err_code e = Some "ENOENT" ->
                run handle (readTagObject JSON_parse format_1 fuel api file) w
                = ([read], w1, Some (Ok (Some fresh)))
                /\ tagObjectOrEmpty api (Some fresh) = fresh
                /\ run handle (load api modType (Some modPath) activator) w
                   = ([read], w1, Some (Ok [])))
  /\ (r = Ok "" ->
      run handle (readTagObject JSON_parse format_1 fuel api file) w
      = ([read], w1, Some (Ok None))
      /\ tagObjectOrEmpty api None = fresh
      /\ run handle (load api modType (Some modPath) activator) w
         = ([read], w1, Some (Ok [])))
  /\ (forall e, r = Err e -> err_code e <> Some "ENOENT" ->
                run handle (load api modType (Some modPath) activator) w
                = ([read], w1,
                   Some (Err (Error_ (err_message e +:+ "." +:+ nl
                                      +:+ "*** When you report this, please include the file "
                                      +:+ dq +:+ file +:+ " ***" +:+ dq))))).
Proof.
  intros Hread file read fresh. subst file read fresh.
  split; [reflexivity | ]. split; [ | split].
  - intros e -> Hcode. split; [ | split; [reflexivity | ]].
    + unfold readTagObject. simpl. rewrite Hread. simpl.
      rewrite bool_decide_eq_true_2 by exact Hcode. reflexivity.
    + unfold loadActivation. simpl. rewrite Hread. simpl.
      rewrite bool_decide_eq_true_2 by exact Hcode. simpl.
      rewrite String.eqb_refl. reflexivity.
  - intros ->. split; [ | split; [reflexivity | ]].
    + unfold readTagObject. simpl. rewrite Hread. reflexivity.
    + unfold loadActivation. simpl. rewrite Hread. simpl.
      rewrite String.eqb_refl. reflexivity.
  - intros e -> Hcode. unfold loadActivation. simpl. rewrite Hread. simpl.
    rewrite bool_decide_eq_false_2 by exact Hcode. reflexivity.
Qed.

(** With no files [saveActivation] removes the manifest file and resolves,
    whatever the removal answers. *)
Lemma saveActivation_no_files (modType : option string)
      (instance gamePath activatorId : string) (w : W) :
  (exists parsed,
      JSON_parse (JSON_stringify {| version := CURRENT_VERSION;
                                    instance := instance;
                                    deploymentMethod := Some activatorId;
                                    files := [] |}) = Ok parsed) ->
  run handle (save modType instance gamePath [] activatorId) w
  = ([RemoveAsync (manifestFile modType gamePath)],
     (handle (RemoveAsync (manifestFile modType gamePath)) w).2,
     Some (Ok tt)).
Proof.
  intros [parsed Hcheck]. unfold saveActivation.
  rewrite Hcheck. simpl.
  destruct (handle (RemoveAsync (tagFile path_join modType gamePath)) w) as [[[] | e] w1];
    reflexivity.
Qed.

(** C2, amended: [saveActivation] with no files makes one call, the removal
    of the manifest file, and resolves whatever the removal answers: a
    not-found error and any other error are absorbed alike. (The hypothesis
    is the check of lines 199-204, which the object written always
    passes.) *)
Theorem save_empty_removes (modType : option string) (instance gamePath activatorId : string)
        (w : W) (r : result unit) (w1 : W) :
  (exists parsed,
      JSON_parse (JSON_stringify {| version := CURRENT_VERSION;
                                    instance := instance;
                                    deploymentMethod := Some activatorId;
                                    files := [] |}) = Ok parsed) ->
  handle (RemoveAsync (manifestFile modType gamePath)) w = (r, w1) ->
  run handle (save modType instance gamePath [] activatorId) w
  = ([RemoveAsync (manifestFile modType gamePath)], w1, Some (Ok tt)).
Proof.
  intros Hcheck Hremove.
  rewrite (saveActivation_no_files modType instance gamePath activatorId w Hcheck).
  rewrite Hremove. reflexivity.
Qed.

(** *** The manifest of another instance *)

Lemma no_dialogs (calls : list call) :
  Forall (fun c => isDialog c = false) calls -> dialogs calls = 0%nat.
Proof.
  unfold dialogs. induction 1 as [ | c calls Hc _ IH]; simpl; [reflexivity | ].
  rewrite Hc. exact IH.
Qed.

Lemma only_attempt {A} (P : call -> Prop) (p : prog A) : only P p -> only P (attempt p).
Proof.
  intros Hp. unfold attempt. apply only_catch; [ | intros e; exact I].
  apply only_bind; [exact Hp | intros a; exact I].
Qed.

Lemma onlyThen_bind {A B} (P : call -> Prop) (Q : A -> Prop) (p : prog A)
      (f : A -> prog B) :
  onlyThen P Q p -> (forall a, Q a -> only P (f a)) -> only P (bind p f).
Proof.
  intros Hp Hf. induction p as [a | e | | c k IH]; simpl in *; auto.
  destruct Hp as [Hc Hk]. split; auto.
Qed.

Lemma onlyThen_bind_then {A B} (P : call -> Prop) (Q : A -> Prop) (R : B -> Prop)
      (p : prog A) (f : A -> prog B) :
  onlyThen P Q p -> (forall a, Q a -> onlyThen P R (f a)) -> onlyThen P R (bind p f).
Proof.
  intros Hp Hf. induction p as [a | e | | c k IH]; simpl in *; auto.
  destruct Hp as [Hc Hk]. split; auto.
Qed.

Lemma only_startAll {A B} (P : call -> Prop) (mapper : A -> result (prog B))
      (items : list A) :
  (forall x p, x ∈ items -> mapper x = Ok p -> only P p) ->
  Forall (only P) (startAll mapper items).1.
Proof.
  induction items as [ | x items IH]; intros Hmapper; simpl; [constructor | ].
  destruct (mapper x) as [p | e] eqn:Hx; simpl; [ | constructor].
  assert (Hrest : Forall (only P) (startAll mapper items).1).
  { apply IH. intros y q Hy. apply Hmapper. right. exact Hy. }
  destruct (startAll mapper items) as [ps thrown]. simpl in *.
  constructor; [eapply Hmapper; [left | exact Hx] | exact Hrest].
Qed.

Lemma onlyThen_issueAll {B} (P : call -> Prop) (ps : list (prog B)) :
  Forall (only P) ps -> onlyThen P (Forall (slotOnly P)) (issueAll ps).
Proof.
  induction 1 as [ | p ps Hp _ IH]; simpl; [constructor | ].
  apply onlyThen_bind_then with (Q := slotOnly P).
  - destruct p as [a | e | | c k]; simpl; try exact I.
    destruct Hp as [Hc Hk]. split; [exact Hc | exact Hk].
  - intros s Hs. apply onlyThen_bind_then with (Q := Forall (slotOnly P)); [exact IH | ].
    intros ss Hss. simpl. constructor; assumption.
Qed.

Lemma onlyThen_deliver {B} (P : call -> Prop) (order : list nat) :
  forall (pool : list (slot B)) (first : option error),
    Forall (slotOnly P) pool ->
    onlyThen P (fun out => Forall (slotOnly P) out.1) (deliver order pool first).
Proof.
  induction order as [ | i rest IH]; intros pool first Hpool; simpl; [exact Hpool | ].
  destruct (pool !! i) as [s | ] eqn:Hi; [ | apply IH, Hpool].
  assert (Hs : slotOnly P s) by (eapply Forall_lookup_1; eassumption).
  destruct s as [[b | e | | c k] | r]; simpl.
  - apply IH, Forall_insert; [exact Hpool | exact I].
  - apply IH, Forall_insert; [exact Hpool | exact I].
  - apply IH, Forall_insert; [exact Hpool | exact I].
  - destruct Hs as [Hc Hk]. split; [exact Hc | ]. intros r.
    apply IH, Forall_insert; [exact Hpool | apply Hk].
  - apply IH, Forall_insert; [exact Hpool | exact I].
Qed.

Lemma only_drain {B} (P : call -> Prop) (pool : list (slot B)) (first : option error) :
  Forall (slotOnly P) pool -> only P (drain pool first).
Proof.
  intros Hpool. revert first.
  induction Hpool as [ | s pool Hs _ IH]; intros first; simpl; [exact I | ].
  destruct s as [p | r].
  - apply only_bind; [apply only_attempt, Hs | intros r].
    apply only_bind; [apply IH | intros [rs f]; exact I].
  - apply only_bind; [apply IH | intros [rs f]; exact I].
Qed.

Lemma only_Promise_map {A B} (P : call -> Prop) (order : list nat) (items : list A)
      (mapper : A -> result (prog B)) :
  (forall x p, x ∈ items -> mapper x = Ok p -> only P p) ->
  only P (Promise_map order items mapper).
Proof.
  intros Hmapper. unfold Promise_map.
  pose proof (only_startAll P mapper items Hmapper) as Hps.
  destruct (startAll mapper items) as [ps thrown]. simpl in Hps.
  apply onlyThen_bind with (Q := Forall (slotOnly P)); [apply onlyThen_issueAll, Hps | ].
  intros pool Hpool.
  apply onlyThen_bind with (Q := fun out => Forall (slotOnly P) out.1);
    [apply onlyThen_deliver, Hpool | ].
  intros [pool' first] Hpool'.
  apply only_bind; [apply only_drain, Hpool' | ].
  intros [outcomes first']. destruct thrown; [exact I | ].
  destruct first'; [exact I | apply only_lift].
Qed.

(** [fallbackPurge] stats and unlinks, and does nothing else. *)
Lemma fallbackPurge_only (basePath : string) (purged : list json) :
  only isStatOrUnlink (fallbackPurge path_join schedule basePath purged).
Proof.
  unfold fallbackPurge. apply only_bind; [ | intros _; exact I].
  apply only_Promise_map. intros file p _ Hp. unfold purgeFile in Hp.
  destruct (prop file "relPath") as [[ | | | relPath | | ] | ]; try discriminate.
  injection Hp as <-. simpl. split; [exact I | ].
  intros [stats | err]; simpl.
  - destruct (sameTime stats file); simpl; [ | exact I].
    split; [exact I | ]. intros [[] | err]; simpl; [exact I | ].
    destruct (negb _); exact I.
  - destruct (negb _); exact I.
Qed.

Lemma saveActivation_only (modType : option string) (instance gamePath : string)
      (activation : list json) (activatorId : string) :
  only (fun c => isDialog c = false)
       (save modType instance gamePath activation activatorId).
Proof.
  unfold saveActivation. destruct (JSON_parse _); [ | exact I].
  destruct (_ =? 0).
  - apply only_catch; [apply only_perform; reflexivity | intros e; exact I].
  - apply only_perform; reflexivity.
Qed.

Lemma afterDialog_only (api : IExtensionApi) (modType : option string)
      (modPath : string) (activator : IDeploymentMethod)
      (purged : list json) (r : result IDialogResult) :
  only (fun c => isDialog c = false) (afterDialog JSON_parse JSON_stringify path_join schedule api modType modPath activator purged r).
Proof.
  unfold afterDialog. apply only_bind.
  2: { intros _. apply only_bind; [apply saveActivation_only | intros _; exact I]. }
  apply only_bind; [apply only_lift | intros result].
  destruct (String.eqb _ _); [ | exact I].
  apply only_catch.
  - eapply only_weaken; [ | apply fallbackPurge_only]. intros []; simpl; tauto.
  - intros err. apply only_bind; [apply only_perform; reflexivity | intros _; exact I].
Qed.

(** The run of a load that finds the manifest of another instance, with
    files: the read, the dialog, and what follows its answer. *)
Lemma load_conflict (api : IExtensionApi) (modType : option string) (modPath : string)
      (activator : IDeploymentMethod) (w w1 : W) (data : string)
      (m : IDeploymentManifest) :
  handle (ReadFileAsync (manifestFile modType modPath) "utf8") w = (Ok data, w1) ->
  readManifest JSON_parse format_1 fuel data = Some (Ok (Some m)) ->
  instance m <> instanceId api ->
  files m <> [] ->
  run handle (load api modType (Some modPath) activator) w =
  let '(r, w2) := handle (purgeDialog api (purgeIsSafe getActivator m)) w1 in
  let '(calls, w3, out) :=
    run handle (afterDialog JSON_parse JSON_stringify path_join schedule api modType modPath activator (files m) r) w2 in
  (ReadFileAsync (manifestFile modType modPath) "utf8"
     :: purgeDialog api (purgeIsSafe getActivator m) :: calls, w3, out).
Proof.
  intros Hread Hdecode Hforeign Hfiles.
  unfold loadActivation. simpl. rewrite Hread. simpl.
  rewrite Hdecode. simpl.
  apply String.eqb_neq in Hforeign. rewrite Hforeign.
  assert (Hlen : (0 <? Z.of_nat (length (files m))) = true)
    by (destruct (files m); [contradiction | reflexivity]).
  rewrite Hlen. simpl. unfold purgeDialog.
  destruct (handle _ w1) as [r w2].
  match goal with
  | |- ?lhs = _ =>
      match lhs with
      | context [run handle ?p w2] =>
          change (run handle p w2)
            with (run handle (afterDialog JSON_parse JSON_stringify path_join schedule api modType modPath activator (files m) r) w2)
      end
  end.
  destruct (run handle _ w2) as [[calls w3] out]. reflexivity.
Qed.

Lemma purgeIsSafe_false (m : IDeploymentManifest) :
  purgeIsSafe getActivator m = false <-> knownUnsafe getActivator m.
Proof.
  unfold purgeIsSafe, knownUnsafe. split.
  - destruct (deploymentMethod m) as [method | ]; [ | discriminate].
    destruct (getActivator method) as [previous | ] eqn:Hknown; [ | discriminate].
    destruct (isFallbackPurgeSafe previous) eqn:Hsafe; [discriminate | ].
    intros _. exists method, previous. auto.
  - intros (method & previous & -> & -> & ->). reflexivity.
Qed.

(** C1, amended: for a loaded manifest of another instance, with files,
    the second call of [loadActivation] is the dialog; its text is the
    unsafe variant when the manifest records a deployment method that the
    registry knows and that is not marked fallback-purge-safe, and the safe
    variant in every other case: no method recorded, method unknown, or
    method marked safe. *)
Theorem conflict_prompt_variant (api : IExtensionApi) (modType : option string)
        (modPath : string) (activator : IDeploymentMethod) (w w1 : W) (data : string)
        (m : IDeploymentManifest) :
  handle (ReadFileAsync (manifestFile modType modPath) "utf8") w = (Ok data, w1) ->
  readManifest JSON_parse format_1 fuel data = Some (Ok (Some m)) ->
  instance m <> instanceId api ->
  files m <> [] ->
  exists text rest,
    calls_of handle (load api modType (Some modPath) activator) w
    = ReadFileAsync (manifestFile modType modPath) "utf8"
        :: ShowDialog "info" (translate api "Purge files from different instance?")
                      text ["Cancel"; "Purge"]
        :: rest
    /\ (knownUnsafe getActivator m -> text = queryPurgeTextUnsafe (translate api))
    /\ (~ knownUnsafe getActivator m -> text = queryPurgeTextSafe (translate api)).
Proof.
  intros Hread Hdecode Hforeign Hfiles.
  unfold calls_of. rewrite (load_conflict _ _ _ _ _ _ _ _ Hread Hdecode Hforeign Hfiles).
  destruct (handle _ w1) as [r w2].
  destruct (run handle _ w2) as [[rest w3] out]. unfold purgeDialog. simpl.
  eexists _, rest. split; [reflexivity | ].
  rewrite <- purgeIsSafe_false.
  destruct (purgeIsSafe getActivator m); split; intros H; congruence.
Qed.

(** C4: for a loaded manifest of another instance, with files,
    [loadActivation] opens the dialog exactly once, whatever happens next;
    and when the answer is not Purge, the load is rejected with
    [UserCanceled] after two calls, the read and the dialog: nothing was
    written, removed or unlinked. *)
Theorem conflict_asks_once_decline_cancels (api : IExtensionApi)
        (modType : option string) (modPath : string) (activator : IDeploymentMethod)
        (w w1 : W) (data : string) (m : IDeploymentManifest) :
  handle (ReadFileAsync (manifestFile modType modPath) "utf8") w = (Ok data, w1) ->
  readManifest JSON_parse format_1 fuel data = Some (Ok (Some m)) ->
  instance m <> instanceId api ->
  files m <> [] ->
  dialogs (calls_of handle (load api modType (Some modPath) activator) w) = 1%nat
  /\ forall (answered : IDialogResult) (w2 : W),
      handle (purgeDialog api (purgeIsSafe getActivator m)) w1 = (Ok answered, w2) ->
      action answered <> "Purge" ->
      run handle (load api modType (Some modPath) activator) w
      = ([ReadFileAsync (manifestFile modType modPath) "utf8";
          purgeDialog api (purgeIsSafe getActivator m)],
         w2, Some (Err UserCanceled)).
Proof.
  intros Hread Hdecode Hforeign Hfiles.
  unfold calls_of. rewrite (load_conflict _ _ _ _ _ _ _ _ Hread Hdecode Hforeign Hfiles).
  split.
  - destruct (handle _ w1) as [r w2].
    pose proof (only_calls handle _ _ w2
                  (afterDialog_only api modType modPath activator (files m) r)) as Hrest.
    unfold calls_of in Hrest.
    destruct (run handle _ w2) as [[rest w3] out]. simpl in *.
    unfold dialogs. simpl. f_equal. apply no_dialogs, Hrest.
  - intros answered w2 Hanswer Hdecline. rewrite Hanswer.
    apply String.eqb_neq in Hdecline.
    unfold afterDialog. simpl. rewrite Hdecline. reflexivity.
Qed.

(** C7: when the answer to the dialog is Purge and the fallback purge
    succeeds, [loadActivation] goes on with [saveActivation] for the current
    instance and no files, which removes the manifest file and writes
    nothing, and resolves to the empty list whatever the removal answers. *)
Theorem confirmed_purge_clears_manifest (api : IExtensionApi)
        (modType : option string) (modPath : string) (activator : IDeploymentMethod)
        (w w1 w2 w3 : W) (data : string) (m : IDeploymentManifest)
        (answered : IDialogResult) (purgeCalls : list call) :
  handle (ReadFileAsync (manifestFile modType modPath) "utf8") w = (Ok data, w1) ->
  readManifest JSON_parse format_1 fuel data = Some (Ok (Some m)) ->
  instance m <> instanceId api ->
  files m <> [] ->
  handle (purgeDialog api (purgeIsSafe getActivator m)) w1 = (Ok answered, w2) ->
  action answered = "Purge" ->
  run handle (fallbackPurge path_join schedule modPath (files m)) w2
  = (purgeCalls, w3, Some (Ok tt)) ->
  (exists parsed,
      JSON_parse (JSON_stringify {| version := CURRENT_VERSION;
                                    instance := instanceId api;
                                    deploymentMethod := Some (id activator);
                                    files := [] |}) = Ok parsed) ->
  run handle (save modType (instanceId api) modPath [] (id activator)) w3
  = ([RemoveAsync (manifestFile modType modPath)],
     (handle (RemoveAsync (manifestFile modType modPath)) w3).2,
     Some (Ok tt))
  /\ run handle (load api modType (Some modPath) activator) w
     = (ReadFileAsync (manifestFile modType modPath) "utf8"
          :: purgeDialog api (purgeIsSafe getActivator m)
          :: purgeCalls ++ [RemoveAsync (manifestFile modType modPath)],
        (handle (RemoveAsync (manifestFile modType modPath)) w3).2,
        Some (Ok [])).
Proof.
  intros Hread Hdecode Hforeign Hfiles Hanswer Hpurge Hrun Hcheck.
  pose proof (saveActivation_no_files modType (instanceId api) modPath (id activator) w3
                Hcheck) as Hsave.
  split; [exact Hsave | ].
  rewrite (load_conflict _ _ _ _ _ _ _ _ Hread Hdecode Hforeign Hfiles), Hanswer.
  unfold afterDialog. cbn [lift bind].
  apply String.eqb_eq in Hpurge. rewrite Hpurge.
  rewrite run_bind, run_catch, Hrun, run_bind, Hsave. reflexivity.
Qed.

End StoreProps.

(** ** The store on the sample directory *)

Lemma load_absent_empty_unreadable_witness :
  (run Mem.handle
       (readTagObject Sample.parse Sample.format_1 2 Sample.api
                      "/nowhere/vortex.deployment.json")
       (Sample.world "Cancel" Mem.noFault)
   = ([ReadFileAsync "/nowhere/vortex.deployment.json" "utf8"],
      Sample.world "Cancel" Mem.noFault,
      Some (Ok (Some {| version := 1; instance := "me";
                        deploymentMethod := None; files := [] |})))
   /\ run Mem.handle (Sample.load 2 (Some "/nowhere")) (Sample.world "Cancel" Mem.noFault)
      = ([ReadFileAsync "/nowhere/vortex.deployment.json" "utf8"],
         Sample.world "Cancel" Mem.noFault, Some (Ok [])))
  /\ (tagObjectOrEmpty Sample.api None
      = {| version := 1; instance := "me"; deploymentMethod := None; files := [] |}
      /\ run Mem.handle (Sample.load 2 (Some "/blank")) (Sample.world "Cancel" Mem.noFault)
         = ([ReadFileAsync "/blank/vortex.deployment.json" "utf8"],
            Sample.world "Cancel" Mem.noFault, Some (Ok [])))
  /\ run Mem.handle (Sample.load 2 (Some "/game")) (Sample.world "Cancel" Sample.readDenied)
     = ([ReadFileAsync Sample.manifestPath "utf8"],
        Sample.world "Cancel" Sample.readDenied,
        Some (Err (Error_ ("EPERM: operation not permitted, open '/game/vortex.deployment.json'."
                           +:+ nl
                           +:+ "*** When you report this, please include the file "
                           +:+ dq +:+ "/game/vortex.deployment.json ***" +:+ dq)))).
Proof.
  split; [ | split].
  - destruct (load_absent_empty_unreadable Mem.handle Sample.parse Sample.stringify
                Sample.format_1 Sample.path_join Sample.getActivator 2 Sample.schedule
                Sample.api None "/nowhere" Sample.hardlink
                (Sample.world "Cancel" Mem.noFault)
                (Sample.world "Cancel" Mem.noFault)
                (Err (Mem.ENOENT "open" "/nowhere/vortex.deployment.json")) eq_refl)
      as (_ & Habsent & _ & _).
    destruct (Habsent _ eq_refl eq_refl) as (Hstage & _ & Hload).
    split; [exact Hstage | exact Hload].
  - destruct (load_absent_empty_unreadable Mem.handle Sample.parse Sample.stringify
                Sample.format_1 Sample.path_join Sample.getActivator 2 Sample.schedule
                Sample.api None "/blank" Sample.hardlink
                (Sample.world "Cancel" Mem.noFault)
                (Sample.world "Cancel" Mem.noFault)
                (Ok "") eq_refl)
      as (_ & _ & Hempty & _).
    destruct (Hempty eq_refl) as (_ & Hfresh & Hload).
    split; [exact Hfresh | exact Hload].
  - destruct (load_absent_empty_unreadable Mem.handle Sample.parse Sample.stringify
                Sample.format_1 Sample.path_join Sample.getActivator 2 Sample.schedule
                Sample.api None "/game" Sample.hardlink
                (Sample.world "Cancel" Sample.readDenied)
                (Sample.world "Cancel" Sample.readDenied)
                (Err (Mem.EPERM "open" Sample.manifestPath)) eq_refl)
      as (_ & _ & _ & Hother).
    apply (Hother _ eq_refl). discriminate.
Defined.

Lemma save_empty_removes_witness :
  run Mem.handle (Sample.save []) (Sample.world "Purge" Sample.removeDenied)
  = ([RemoveAsync Sample.manifestPath],
     Sample.world "Purge" Sample.removeDenied, Some (Ok tt)).
Proof.
  apply (save_empty_removes Mem.handle Sample.parse Sample.stringify Sample.path_join
           None "me" "/game" "hardlink_activator"
           (Sample.world "Purge" Sample.removeDenied)
           (Err (Mem.EPERM "unlink" Sample.manifestPath))).
  - exists Sample.cleared. reflexivity.
  - reflexivity.
Defined.

(** C2 as stated fails: when the removal of the manifest file is refused
    with EPERM, which is not a not-found error, [saveActivation] with no
    files resolves all the same: the error is not propagated. *)
Lemma save_empty_counterexample :
  (Mem.handle (RemoveAsync Sample.manifestPath) (Sample.world "Purge" Sample.removeDenied)).1
  = Err (Mem.EPERM "unlink" Sample.manifestPath)
  /\ err_code (Mem.EPERM "unlink" Sample.manifestPath) <> Some "ENOENT"
  /\ run Mem.handle (Sample.save []) (Sample.world "Purge" Sample.removeDenied)
     = ([RemoveAsync Sample.manifestPath],
        Sample.world "Purge" Sample.removeDenied, Some (Ok tt))
  /\ outcome_of Mem.handle (Sample.save []) (Sample.world "Purge" Sample.removeDenied)
     <> Some (Err (Mem.EPERM "unlink" Sample.manifestPath)).
Proof.
  split; [reflexivity | ]. split; [discriminate | ]. split; [reflexivity | discriminate].
Qed.

Lemma conflict_prompt_variant_witness :
  exists rest,
    calls_of Mem.handle (Sample.load 2 (Some "/moved")) (Sample.world "Cancel" Mem.noFault)
    = ReadFileAsync "/moved/vortex.deployment.json" "utf8"
        :: ShowDialog "info" "Purge files from different instance?"
                      (queryPurgeTextUnsafe (fun s => s)) ["Cancel"; "Purge"]
        :: rest.
Proof.
  destruct (conflict_prompt_variant Mem.handle Sample.parse Sample.stringify
              Sample.format_1 Sample.path_join Sample.getActivator 2 Sample.schedule Sample.api None
              "/moved" Sample.hardlink
              (Sample.world "Cancel" Mem.noFault) (Sample.world "Cancel" Mem.noFault)
              (Sample.text Sample.moved) Sample.movedManifest)
    as (text & rest & Hcalls & Hunsafe & _).
  - reflexivity.
  - reflexivity.
  - discriminate.
  - discriminate.
  - exists rest. unfold Sample.load. rewrite Hcalls, Hunsafe; [reflexivity | ].
    exists "move_activator", Sample.move. repeat split; reflexivity.
Defined.

(** C1 as stated fails: the sample manifest [legacy] comes from another
    instance, has files and records no deployment method, and the dialog
    shown is the safe variant, where the claim wants the unsafe one. *)
Lemma conflict_prompt_counterexample :
  readManifest Sample.parse Sample.format_1 2 (Sample.text Sample.legacy)
  = Some (Ok (Some Sample.legacyManifest))
  /\ deploymentMethod Sample.legacyManifest = None
  /\ instance Sample.legacyManifest <> instanceId Sample.api
  /\ files Sample.legacyManifest <> []
  /\ calls_of Mem.handle (Sample.load 2 (Some "/game")) (Sample.world "Cancel" Mem.noFault)
     = [ReadFileAsync Sample.manifestPath "utf8";
        ShowDialog "info" "Purge files from different instance?"
                   (queryPurgeTextSafe (fun s => s)) ["Cancel"; "Purge"]]
  /\ queryPurgeTextSafe (fun s => s) <> queryPurgeTextUnsafe (fun s => s).
Proof.
  split; [reflexivity | ]. split; [reflexivity | ]. split; [discriminate | ].
  split; [discriminate | ]. split; [reflexivity | ].
  vm_compute. discriminate.
Qed.

Lemma conflict_asks_once_decline_cancels_witness :
  dialogs (calls_of Mem.handle (Sample.load 2 (Some "/game"))
                    (Sample.world "Cancel" Mem.noFault)) = 1%nat
  /\ run Mem.handle (Sample.load 2 (Some "/game")) (Sample.world "Cancel" Mem.noFault)
     = ([ReadFileAsync Sample.manifestPath "utf8";
         purgeDialog Sample.api true],
        Sample.world "Cancel" Mem.noFault, Some (Err UserCanceled)).
Proof.
  destruct (conflict_asks_once_decline_cancels Mem.handle Sample.parse Sample.stringify
              Sample.format_1 Sample.path_join Sample.getActivator 2 Sample.schedule Sample.api None
              "/game" Sample.hardlink
              (Sample.world "Cancel" Mem.noFault) (Sample.world "Cancel" Mem.noFault)
              (Sample.text Sample.legacy) Sample.legacyManifest)
    as (Honce & Hdecline).
  - reflexivity.
  - reflexivity.
  - discriminate.
  - discriminate.
  - split; [exact Honce | ].
    apply (Hdecline (mkDialogResult "Cancel") (Sample.world "Cancel" Mem.noFault)).
    + reflexivity.
    + discriminate.
Defined.

Lemma confirmed_purge_clears_manifest_witness :
  calls_of Mem.handle (Sample.load 2 (Some "/game")) (Sample.world "Purge" Mem.noFault)
  = [ReadFileAsync Sample.manifestPath "utf8";
     purgeDialog Sample.api true;
     StatAsync "/game/a.esp"; StatAsync "/game/b.esp"; UnlinkAsync "/game/a.esp";
     RemoveAsync Sample.manifestPath]
  /\ outcome_of Mem.handle (Sample.load 2 (Some "/game")) (Sample.world "Purge" Mem.noFault)
     = Some (Ok []).
Proof.
  pose (purge := fallbackPurge Sample.path_join Sample.schedule "/game" (files Sample.legacyManifest)).
  destruct (confirmed_purge_clears_manifest Mem.handle Sample.parse Sample.stringify
              Sample.format_1 Sample.path_join Sample.getActivator 2 Sample.schedule Sample.api None
              "/game" Sample.hardlink
              (Sample.world "Purge" Mem.noFault) (Sample.world "Purge" Mem.noFault)
              (Sample.world "Purge" Mem.noFault)
              (world_of Mem.handle purge (Sample.world "Purge" Mem.noFault))
              (Sample.text Sample.legacy) Sample.legacyManifest (mkDialogResult "Purge")
              (calls_of Mem.handle purge (Sample.world "Purge" Mem.noFault)))
    as (_ & Hload).
  - reflexivity.
  - reflexivity.
  - discriminate.
  - discriminate.
  - reflexivity.
  - reflexivity.
  - vm_compute. reflexivity.
  - exists Sample.cleared. reflexivity.
  - unfold calls_of, outcome_of, Sample.load. rewrite Hload. split; reflexivity.
Defined.

(** ** [Promise.map] and [fallbackPurge] *)

Section MapProps.

Context {W : Type} (handle : forall c : call, W -> result (answer c) * W).

(** The record kept changes nothing to the run, and is the history. *)
Lemma run_logging {A} (p : prog A) (w : W) (log : list (call * observed)) :
  run (logging handle) p (w, log)
  = (calls_of handle p w,
     (world_of handle p w, log ++ history_of handle p w),
     outcome_of handle p w).
Proof.
  unfold calls_of, world_of, outcome_of, history_of, world_of. revert w log.
  induction p as [a | e | | c k IH]; intros w log; simpl; rewrite ?app_nil_r;
    try reflexivity.
  unfold logging at 1 3. simpl. destruct (handle c w) as [r w1].
  rewrite (IH r w1 (log ++ [(c, observe c r)])), (IH r w1 [(c, observe c r)]).
  destruct (run handle (k r) w1) as [[calls w2] out]. simpl.
  rewrite <- app_assoc. reflexivity.
Qed.

Lemma history_vis {A} (c : call) (k : result (answer c) -> prog A) (w : W) :
  history_of handle (Vis c k) w
  = (c, observe c (handle c w).1)
      :: history_of handle (k (handle c w).1) (handle c w).2.
Proof.
  unfold history_of at 1. unfold world_of. simpl. unfold logging at 1. simpl.
  destruct (handle c w) as [r w1]. rewrite run_logging. reflexivity.
Qed.

Lemma history_calls {A} (p : prog A) (w : W) :
  map fst (history_of handle p w) = calls_of handle p w.
Proof.
  revert w. induction p as [a | e | | c k IH]; intros w; try reflexivity.
  rewrite history_vis. unfold calls_of. simpl.
  specialize (IH (handle c w).1 (handle c w).2). unfold calls_of in IH.
  destruct (handle c w) as [r w1]. simpl in *.
  destruct (run handle (k r) w1) as [[calls w2] out]. simpl in *.
  rewrite IH. reflexivity.
Qed.

End MapProps.

Lemma firstOf_None (first : option error) : firstOf first None = first.
Proof. destruct first; reflexivity. Qed.

Lemma failed_app (log more : list (call * observed)) (e : error) :
  failed log e -> failed (log ++ more) e.
Proof.
  intros [[c Hc] Hcode]. split; [ | exact Hcode].
  exists c. apply elem_of_app. left. exact Hc.
Qed.

Lemma observe_Err (c : call) (e : error) : observe c (Err e) = Failed e.
Proof. destruct c; reflexivity. Qed.

Lemma observe_Failed (c : call) (r : result (answer c)) (e : error) :
  observe c r = Failed e -> r = Err e.
Proof. destruct c, r; simpl; intros H; try discriminate; injection H as ->; reflexivity. Qed.

Lemma elem_of_insert_inv {A} (l : list A) (i : nat) (x y : A) :
  y ∈ <[i:=x]> l -> y = x \/ y ∈ l.
Proof.
  intros [j Hj]%list_elem_of_lookup.
  apply list_lookup_insert_Some in Hj as [(_ & -> & _) | (_ & Hj)].
  - left. reflexivity.
  - right. apply list_elem_of_lookup. exists j. exact Hj.
Qed.

Lemma elem_of_insert_keep {A} (l : list A) (i : nat) (x y z : A) :
  l !! i = Some z -> y ∈ l -> y <> z -> y ∈ <[i:=x]> l.
Proof.
  intros Hi [j Hj]%list_elem_of_lookup Hne. apply list_elem_of_lookup. exists j.
  rewrite list_lookup_insert_ne; [exact Hj | ].
  intros ->. rewrite Hi in Hj. injection Hj as ->. contradiction.
Qed.

Lemma absorbed_cases {A} (r : result A) :
  absorbed r = Ok tt
  \/ exists e, r = Err e /\ err_code e <> Some "ENOENT" /\ absorbed r = Err e.
Proof.
  destruct r as [a | e]; simpl; [left; reflexivity | ].
  unfold absorb. case_bool_decide as Hcode; [left; reflexivity | ].
  right. exists e. auto.
Qed.

Lemma attempt_lift {A} (r : result A) : attempt (lift r) = Ret r.
Proof. destruct r; reflexivity. Qed.

Lemma omap_nextCall_insert_same {B} (pool : list (slot B)) (i : nat) (s s' : slot B) :
  pool !! i = Some s -> nextCall s' = nextCall s ->
  omap nextCall (<[i:=s']> pool) = omap nextCall pool.
Proof.
  intros Hi Hsame.
  rewrite insert_take_drop by (eapply lookup_lt_Some; exact Hi).
  rewrite <- (take_drop_middle pool i s Hi) at 3.
  rewrite !omap_app. simpl. rewrite Hsame. reflexivity.
Qed.

Lemma omap_nextCall_insert_call {B} (pool : list (slot B)) (i : nat) (s s' : slot B)
      (c : call) :
  pool !! i = Some s -> nextCall s = Some c -> nextCall s' = None ->
  c :: omap nextCall (<[i:=s']> pool) ≡ₚ omap nextCall pool.
Proof.
  intros Hi Hcall Hnone.
  rewrite insert_take_drop by (eapply lookup_lt_Some; exact Hi).
  rewrite <- (take_drop_middle pool i s Hi) at 3.
  rewrite !omap_app. simpl. rewrite Hcall, Hnone.
  apply Permutation_middle.
Qed.

(** *** The pool of [fallbackPurge], delivery by delivery *)

Lemma poolInv_fulfil (pool : list (slot unit)) (first : option error)
      (log : list (call * observed)) (i : nat) (b : unit) :
  pool !! i = Some (Running (Ret b)) ->
  poolInv pool first log ->
  poolInv (<[i := Settled (Ok b)]> pool) first log.
Proof.
  intros Hi (Hlast & Hthrow & Hfirst & Hfail & Hsettled).
  split; [apply Forall_insert; [exact Hlast | exact I] | ].
  split; [ | split; [exact Hfirst | split]].
  - intros e [Heq | Hin]%elem_of_insert_inv; [discriminate | apply Hthrow, Hin].
  - intros Hsome. destruct (Hfail Hsome) as [Hnow | [e He]]; [left; exact Hnow | ].
    right. exists e. eapply elem_of_insert_keep; [exact Hi | exact He | discriminate].
  - intros e [Heq | Hin]%elem_of_insert_inv; [discriminate | eapply Hsettled, Hin].
Qed.

Lemma poolInv_reject (pool : list (slot unit)) (first : option error)
      (log : list (call * observed)) (i : nat) (e : error) :
  pool !! i = Some (Running (Throw e)) ->
  poolInv pool first log ->
  poolInv (<[i := Settled (Err e)]> pool) (firstOf first (Some e)) log.
Proof.
  intros Hi (Hlast & Hthrow & Hfirst & Hfail & Hsettled).
  assert (Hhere : Running (Throw e) ∈ pool)
    by (apply list_elem_of_lookup; exists i; exact Hi).
  assert (Hnow : firstOf first (Some e) <> None) by (destruct first; discriminate).
  split; [apply Forall_insert; [exact Hlast | exact I] | ].
  split; [ | split; [ | split]].
  - intros e' [Heq | Hin]%elem_of_insert_inv; [discriminate | apply Hthrow, Hin].
  - intros e'. destruct first as [e0 | ]; simpl.
    + apply Hfirst.
    + intros [= <-]. apply Hthrow, Hhere.
  - intros _. left. exact Hnow.
  - intros e' _. exact Hnow.
Qed.

Lemma poolInv_call (pool : list (slot unit)) (first : option error)
      (log : list (call * observed)) (i : nat) (c : call)
      (k : result (answer c) -> prog unit) (r : result (answer c)) :
  pool !! i = Some (Running (Vis c k)) ->
  poolInv pool first log ->
  k r = lift (absorbed r)
  /\ poolInv (<[i := Running (k r)]> pool) first (log ++ [(c, observe c r)]).
Proof.
  intros Hi (Hlast & Hthrow & Hfirst & Hfail & Hsettled).
  assert (Hk : k r = lift (absorbed r))
    by (exact (Forall_lookup_1 _ _ _ _ Hlast Hi r)).
  split; [exact Hk | ]. rewrite Hk.
  split; [ | split; [ | split; [ | split]]].
  - apply Forall_insert; [exact Hlast | ].
    destruct (absorbed r); exact I.
  - intros e [Heq | Hin]%elem_of_insert_inv.
    + destruct (absorbed_cases r) as [Hok | (e' & -> & Hcode & Herr)].
      * rewrite Hok in Heq. discriminate.
      * rewrite Herr in Heq. injection Heq as ->.
        split; [ | exact Hcode]. exists c. apply elem_of_app. right.
        rewrite observe_Err. left.
    + apply failed_app, Hthrow, Hin.
  - intros e He. apply failed_app, Hfirst, He.
  - intros [e [[c' Hc'] Hcode]].
    apply elem_of_app in Hc' as [Hold | Hnew].
    + destruct Hfail as [Hnow | [e' He']].
      * exists e. split; [exists c'; exact Hold | exact Hcode].
      * left. exact Hnow.
      * right. exists e'.
        eapply elem_of_insert_keep; [exact Hi | exact He' | discriminate].
    + apply list_elem_of_singleton in Hnew. injection Hnew as -> Hobs.
      symmetry in Hobs. apply observe_Failed in Hobs as ->.
      right. exists e. simpl. unfold absorb.
      rewrite bool_decide_eq_false_2 by exact Hcode.
      apply list_elem_of_insert. eapply lookup_lt_Some. exact Hi.
  - intros e [Heq | Hin]%elem_of_insert_inv; [discriminate | eapply Hsettled, Hin].
Qed.

Lemma poolInv_tail (s : slot unit) (pool : list (slot unit)) (first : option error)
      (log : list (call * observed)) :
  (forall e, s <> Running (Throw e)) ->
  poolInv (s :: pool) first log -> poolInv pool first log.
Proof.
  intros Hs (Hlast & Hthrow & Hfirst & Hfail & Hsettled).
  split; [exact (Forall_inv_tail Hlast) | ].
  split; [ | split; [exact Hfirst | split]].
  - intros e He. apply Hthrow. right. exact He.
  - intros Hsome. destruct (Hfail Hsome) as [Hnow | [e He]]; [left; exact Hnow | ].
    apply elem_of_cons in He as [Heq | He]; [symmetry in Heq; destruct (Hs e Heq) | ].
    right. exists e. exact He.
  - intros e He. eapply Hsettled. right. exact He.
Qed.

Section PurgeProps.

Context {W : Type} (handle : forall c : call, W -> result (answer c) * W).
Variable path_join : string -> string -> string.
Variable schedule : list nat.

Local Abbreviation logged := (logging handle).

Lemma sameTime_spec (stats : Stats) (file : json) :
  sameTime stats file = true <-> prop file "time" = Some (JNum (mtime stats)).
Proof.
  unfold sameTime. destruct (prop file "time") as [[ | | t | | | ] | ];
    try (split; discriminate).
  rewrite Z.eqb_eq. split; [intros -> | intros [= ->]]; reflexivity.
Qed.

Lemma recordedTime_spec (file : json) (t : Z) :
  recordedTime file = Some t <-> prop file "time" = Some (JNum t).
Proof.
  unfold recordedTime. destruct (prop file "time") as [[ | | t' | | | ] | ];
    try (split; discriminate).
  split; intros [= ->]; reflexivity.
Qed.

Lemma sameTime_recorded (stats : Stats) (file : json) :
  sameTime stats file = bool_decide (recordedTime file = Some (mtime stats)).
Proof.
  destruct (sameTime stats file) eqn:Hsame; symmetry.
  - apply bool_decide_eq_true_2, recordedTime_spec, sameTime_spec, Hsame.
  - apply bool_decide_eq_false_2. intros Htime%recordedTime_spec%sameTime_spec.
    congruence.
Qed.

(** The promise of a file, once its stat is answered: rejected, fulfilled,
    or about to unlink. *)
Lemma afterStat_cases (path : string) (file : json) (r : result Stats) :
  (exists e, r = Err e /\ err_code e <> Some "ENOENT"
             /\ unlinkDue path file r = None
             /\ afterStat path file r = Throw e)
  \/ ((forall e, r = Err e -> err_code e = Some "ENOENT")
      /\ unlinkDue path file r = None
      /\ afterStat path file r = Ret tt)
  \/ (unlinkDue path file r = Some (UnlinkAsync path)
      /\ exists k, afterStat path file r = Vis (UnlinkAsync path) k
                   /\ forall r', k r' = lift (absorbed r')).
Proof.
  unfold afterStat, unlinkDue. destruct r as [stats | e]; simpl.
  - rewrite <- sameTime_recorded. destruct (sameTime stats file); simpl.
    + right. right. split; [reflexivity | ]. eexists. split; [reflexivity | ].
      intros [[] | e]; simpl; [reflexivity | ].
      unfold absorb. case_bool_decide; reflexivity.
    + right. left. split; [intros e; discriminate | ]. split; reflexivity.
  - case_bool_decide as Hcode; simpl.
    + right. left. split; [intros e' [= <-]; exact Hcode | ]. split; reflexivity.
    + left. exists e. auto.
Qed.

Lemma afterStat_nextCall (path : string) (file : json) (r : result Stats) :
  nextCall (Running (afterStat path file r)) = unlinkDue path file r.
Proof.
  destruct (afterStat_cases path file r)
    as [(e & _ & _ & -> & ->) | [(_ & -> & ->) | (-> & k & -> & _)]]; reflexivity.
Qed.

Lemma stattedPool_nextCalls (paths : list string) (purged : list json)
      (answers : list (result Stats)) :
  omap nextCall (stattedPool paths purged answers) = dueUnlinks paths purged answers.
Proof.
  revert purged answers. induction paths as [ | path paths IH];
    intros [ | file purged] [ | r answers]; try reflexivity.
  cbn [stattedPool dueUnlinks]. rewrite <- IH.
  change (omap nextCall (?s :: ?l))
    with (match nextCall s with Some c => c :: omap nextCall l | None => omap nextCall l end).
  rewrite afterStat_nextCall. destruct (unlinkDue path file r); reflexivity.
Qed.

Lemma stattedPool_inv (purged : list json) (paths : list string) (basePath : string) :
  Forall2 (deployedAt path_join basePath) purged paths ->
  forall answers,
    length answers = length paths ->
    poolInv (stattedPool paths purged answers) None (statEntries paths answers).
Proof.
  induction 1 as [ | file path purged paths _ _ IH]; intros answers Hlen.
  - destruct answers; [ | discriminate].
    split; [constructor | ]. split; [intros e He; inversion He | ].
    split; [discriminate | ]. split; [ | intros e He; inversion He].
    intros [e [[c Hc] _]]. inversion Hc.
  - destruct answers as [ | r answers]; [discriminate | ].
    injection Hlen as Hlen.
    destruct (IH answers Hlen) as (Hlast & Hthrow & _ & Hfail & Hsettled).
    cbn [stattedPool statEntries].
    split; [ | split; [ | split; [discriminate | split]]].
    + constructor; [ | exact Hlast].
      destruct (afterStat_cases path file r)
        as [(e & _ & _ & _ & ->) | [(_ & _ & ->) | (_ & k & -> & Hk)]];
        [exact I | exact I | exact Hk].
    + intros e [Heq | Hin]%elem_of_cons.
      * destruct (afterStat_cases path file r)
          as [(e' & -> & Hcode & _ & Hthrown) | [(_ & _ & Hret) | (_ & k & Hvis & _)]].
        -- rewrite Hthrown in Heq. injection Heq as ->.
           split; [ | exact Hcode]. exists (StatAsync path). left.
        -- rewrite Hret in Heq. discriminate.
        -- rewrite Hvis in Heq. discriminate.
      * destruct (Hthrow e Hin) as [[c Hc] Hcode].
        split; [ | exact Hcode]. exists c. right. exact Hc.
    + intros [e [[c Hc] Hcode]]. right.
      apply elem_of_cons in Hc as [Heq | Hin].
      * injection Heq as -> Hobs. symmetry in Hobs.
        apply (observe_Failed (StatAsync path)) in Hobs as ->.
        destruct (afterStat_cases path file (Err e))
          as [(e' & [= <-] & _ & _ & Hthrown) | [(Hnone & _ & _) | (Hdue & _)]].
        -- exists e. apply elem_of_cons. left. f_equal. symmetry. exact Hthrown.
        -- specialize (Hnone e eq_refl). contradiction.
        -- discriminate Hdue.
      * destruct Hfail as [Hnow | [e' He']].
        -- exists e. split; [exists c; exact Hin | exact Hcode].
        -- contradiction.
        -- exists e'. right. exact He'.
    + intros e [Heq | Hin]%elem_of_cons; [discriminate | eapply Hsettled, Hin].
Qed.

Lemma startAll_purge (basePath : string) (purged : list json) (paths : list string) :
  Forall2 (deployedAt path_join basePath) purged paths ->
  startAll (purgeFile path_join basePath) purged = (zip_with purgeAt paths purged, None).
Proof.
  induction 1 as [ | file path purged paths (relPath & Hpath & ->) _ IH];
    [reflexivity | ].
  cbn [startAll zip_with]. unfold purgeFile at 1. rewrite Hpath, IH. reflexivity.
Qed.

Lemma statAll_length (paths : list string) (w : W) :
  length (statAll handle paths w).1 = length paths.
Proof.
  revert w. induction paths as [ | path paths IH]; intros w; [reflexivity | ].
  cbn [statAll]. destruct (handle (StatAsync path) w) as [r w1].
  specialize (IH w1). destruct (statAll handle paths w1) as [rs w2]. simpl in *.
  rewrite IH. reflexivity.
Qed.

(** The first half: the stats, in the order of the list. *)
Lemma run_issueAll_purge (basePath : string) (purged : list json) (paths : list string) :
  Forall2 (deployedAt path_join basePath) purged paths ->
  forall (w : W) (log : list (call * observed)),
    run logged (issueAll (zip_with purgeAt paths purged)) (w, log)
    = (map StatAsync paths,
       ((statAll handle paths w).2, log ++ statEntries paths (statAll handle paths w).1),
       Some (Ok (stattedPool paths purged (statAll handle paths w).1))).
Proof.
  induction 1 as [ | file path purged paths _ _ IH]; intros w log.
  - simpl. rewrite app_nil_r. reflexivity.
  - cbn [zip_with issueAll statAll].
    change (issue (purgeAt path file))
      with (Vis (StatAsync path) (fun r => Ret (Running (afterStat path file r)))).
    cbn [bind run]. unfold logging at 1. cbn [fst snd].
    destruct (handle (StatAsync path) w) as [r w1].
    rewrite run_bind, IH.
    destruct (statAll handle paths w1) as [rs w2]. cbn [fst snd run].
    rewrite <- app_assoc, app_nil_r. reflexivity.
Qed.

(** The deliveries of the schedule. *)
Lemma run_deliver (order : list nat) :
  forall (pool : list (slot unit)) (first : option error) (w : W)
         (log : list (call * observed)),
    poolInv pool first log ->
    exists entries w' pool' first',
      run logged (deliver order pool first) (w, log)
      = (map fst entries, (w', log ++ entries), Some (Ok (pool', first')))
      /\ poolInv pool' first' (log ++ entries)
      /\ map fst entries ++ omap nextCall pool' ≡ₚ omap nextCall pool.
Proof.
  induction order as [ | i rest IH]; intros pool first w log Hinv.
  - exists [], w, pool, first. simpl. rewrite app_nil_r. auto.
  - cbn [deliver]. destruct (pool !! i) as [s | ] eqn:Hi; [ | apply IH, Hinv].
    destruct s as [[b | e | | c k] | r]; cbn [advance bind rejection].
    + rewrite firstOf_None.
      destruct (IH _ first w log (poolInv_fulfil _ _ _ _ _ Hi Hinv))
        as (entries & w' & pool' & first' & Hrun & Hinv' & Hperm).
      exists entries, w', pool', first'. split; [exact Hrun | ]. split; [exact Hinv' | ].
      rewrite Hperm, (omap_nextCall_insert_same pool i (Running (Ret b))); auto.
    + destruct (IH _ _ w log (poolInv_reject _ _ _ _ _ Hi Hinv))
        as (entries & w' & pool' & first' & Hrun & Hinv' & Hperm).
      exists entries, w', pool', first'. split; [exact Hrun | ]. split; [exact Hinv' | ].
      rewrite Hperm, (omap_nextCall_insert_same pool i (Running (Throw e))); auto.
    + destruct Hinv as (Hlast & _). destruct (Forall_lookup_1 _ _ _ _ Hlast Hi).
    + rewrite firstOf_None. cbn [run]. unfold logging at 1. cbn [fst snd].
      destruct (handle c w) as [r w1].
      destruct (poolInv_call _ _ _ _ _ _ r Hi Hinv) as [Hk Hinv1].
      destruct (IH _ first w1 _ Hinv1)
        as (entries & w' & pool' & first' & Hrun & Hinv' & Hperm).
      exists ((c, observe c r) :: entries), w', pool', first'.
      rewrite Hrun. rewrite <- app_assoc in *. split; [reflexivity | ].
      split; [exact Hinv' | ].
      cbn [map fst app]. rewrite Hperm.
      apply (omap_nextCall_insert_call pool i (Running (Vis c k))); auto.
      rewrite Hk. destruct (absorbed r); reflexivity.
    + rewrite firstOf_None, list_insert_id by exact Hi. apply IH, Hinv.
Qed.

(** What is left after the schedule. *)
Lemma run_drain :
  forall (pool : list (slot unit)) (first : option error) (w : W)
         (log : list (call * observed)),
    poolInv pool first log ->
    exists entries w' outcomes first',
      run logged (drain pool first) (w, log)
      = (map fst entries, (w', log ++ entries), Some (Ok (outcomes, first')))
      /\ map fst entries = omap nextCall pool
      /\ (forall e, first' = Some e -> failed (log ++ entries) e)
      /\ ((exists e, failed (log ++ entries) e) -> first' <> None)
      /\ (first' = None -> Forall (fun o => o = Ok tt) outcomes).
Proof.
  induction pool as [ | s pool IH]; intros first w log Hinv.
  - exists [], w, [], first. simpl. rewrite app_nil_r.
    destruct Hinv as (_ & _ & Hfirst & Hfail & _).
    split; [reflexivity | ]. split; [reflexivity | ]. split; [exact Hfirst | ].
    split; [ | constructor].
    intros Hsome. destruct (Hfail Hsome) as [Hnow | [e He]]; [exact Hnow | inversion He].
  - assert (Hkeeps : forall (first1 : option error) log1 entries (first' : option error),
               poolInv pool first1 log1 ->
               ((exists e, failed (log1 ++ entries) e) -> first' <> None) ->
               first1 <> None -> first' <> None).
    { intros first1 log1 entries first' (_ & _ & Hfirst1 & _) Hfail' Hsome.
      destruct first1 as [e1 | ]; [ | contradiction].
      apply Hfail'. exists e1. apply failed_app, Hfirst1. reflexivity. }
    destruct s as [[b | e | | c k] | r]; cbn [drain].
    + change (attempt (Ret b)) with (@Ret (result unit) (Ok b)). cbn [bind].
      rewrite firstOf_None.
      assert (Hinv1 : poolInv pool first log)
        by (eapply poolInv_tail; [ | exact Hinv]; discriminate).
      destruct (IH first w log Hinv1)
        as (entries & w' & outcomes & first' & Hrun & Hcalls & Hfirst & Hfail & Hok).
      exists entries, w', (Ok b :: outcomes), first'.
      rewrite run_bind, Hrun. cbn [run]. rewrite app_nil_r.
      split; [reflexivity | ]. split; [exact Hcalls | ]. split; [exact Hfirst | ].
      split; [exact Hfail | ].
      intros Hnone. constructor; [destruct b; reflexivity | apply Hok, Hnone].
    + change (attempt (Throw e)) with (@Ret (result unit) (Err e)). cbn [bind].
      assert (Hinv1 : poolInv pool (firstOf first (Some e)) log).
      { pose proof (poolInv_reject (Running (Throw e) :: pool) first log 0 e eq_refl Hinv)
          as Hrej.
        eapply poolInv_tail; [ | exact Hrej]. discriminate. }
      destruct (IH _ w log Hinv1)
        as (entries & w' & outcomes & first' & Hrun & Hcalls & Hfirst & Hfail & Hok).
      exists entries, w', (Err e :: outcomes), first'.
      rewrite run_bind, Hrun. cbn [run]. rewrite app_nil_r.
      split; [reflexivity | ]. split; [exact Hcalls | ]. split; [exact Hfirst | ].
      split; [exact Hfail | ].
      intros Hnone. exfalso.
      apply (Hkeeps _ _ _ _ Hinv1 Hfail); [destruct first; discriminate | exact Hnone].
    + destruct Hinv as (Hlast & _). inversion Hlast as [ | ? ? Hspin _]. destruct Hspin.
    + change (attempt (Vis c k)) with (Vis c (fun r => attempt (k r))).
      cbn [bind run]. unfold logging at 1. cbn [fst snd].
      destruct (handle c w) as [r w1].
      destruct (poolInv_call (Running (Vis c k) :: pool) first log 0 c k r eq_refl Hinv)
        as [Hk Hinv0].
      cbn [insert list_insert] in Hinv0.
      rewrite Hk in *. rewrite attempt_lift. cbn [bind].
      assert (Hinv1 : poolInv pool
                        (firstOf first (match absorbed r with
                                        | Err e => Some e
                                        | Ok _ => None
                                        end))
                        (log ++ [(c, observe c r)])).
      { destruct (absorbed r) as [[] | e] eqn:Habs.
        - rewrite firstOf_None. eapply poolInv_tail; [ | exact Hinv0]. discriminate.
        - pose proof (poolInv_reject (Running (Throw e) :: pool) first _ 0 e eq_refl Hinv0)
            as Hrej.
          eapply poolInv_tail; [ | exact Hrej]. discriminate. }
      destruct (IH _ w1 _ Hinv1)
        as (entries & w' & outcomes & first' & Hrun & Hcalls & Hfirst & Hfail & Hok).
      pose proof (Hkeeps _ _ _ first' Hinv1 Hfail) as Hkept.
      exists ((c, observe c r) :: entries), w', (absorbed r :: outcomes), first'.
      rewrite run_bind, Hrun. cbn [run]. rewrite app_nil_r, <- app_assoc in *.
      split; [reflexivity | ]. split; [cbn; rewrite Hcalls; reflexivity | ].
      split; [exact Hfirst | ]. split; [exact Hfail | ].
      intros Hnone. constructor; [ | apply Hok, Hnone].
      destruct (absorbed r) as [[] | e]; [reflexivity | ]. exfalso.
      apply Hkept; [destruct first; discriminate | exact Hnone].
    + assert (Hinv1 : poolInv pool first log)
        by (eapply poolInv_tail; [ | exact Hinv]; discriminate).
      destruct (IH first w log Hinv1)
        as (entries & w' & outcomes & first' & Hrun & Hcalls & Hfirst & Hfail & Hok).
      exists entries, w', (r :: outcomes), first'.
      rewrite run_bind, Hrun. cbn [run]. rewrite app_nil_r.
      split; [reflexivity | ]. split; [exact Hcalls | ]. split; [exact Hfirst | ].
      split; [exact Hfail | ].
      intros Hnone. constructor; [ | apply Hok, Hnone].
      destruct r as [[] | e]; [reflexivity | ]. exfalso.
      destruct Hinv as (_ & _ & _ & _ & Hsettled).
      apply (Hkeeps _ _ _ _ Hinv1 Hfail); [ | exact Hnone].
      eapply Hsettled. left.
Qed.

Lemma collect_fulfilled (outcomes : list (result unit)) :
  Forall (fun o => o = Ok tt) outcomes -> exists values, collect outcomes = Ok values.
Proof.
  induction 1 as [ | o outcomes -> _ [values IH]]; simpl.
  - exists []. reflexivity.
  - rewrite IH. eexists. reflexivity.
Qed.

(** The whole purge, with the record of its calls. *)
Lemma run_fallbackPurge_logged (basePath : string) (purged : list json)
      (paths : list string) (w : W) :
  Forall2 (deployedAt path_join basePath) purged paths ->
  exists unlinks w' out,
    run logged (fallbackPurge path_join schedule basePath purged) (w, [])
    = (map StatAsync paths ++ map fst unlinks,
       (w', statEntries paths (statAll handle paths w).1 ++ unlinks),
       Some out)
    /\ map fst unlinks ≡ₚ dueUnlinks paths purged (statAll handle paths w).1
    /\ (forall e, out = Err e ->
                  failed (statEntries paths (statAll handle paths w).1 ++ unlinks) e)
    /\ ((exists e, failed (statEntries paths (statAll handle paths w).1 ++ unlinks) e) ->
        exists e, out = Err e)
    /\ (out = Ok tt \/ exists e, out = Err e).
Proof.
  intros Hpaths. unfold fallbackPurge, Promise_map.
  change (mbind ?f ?p) with (bind p f).
  rewrite (startAll_purge basePath purged paths Hpaths).
  rewrite !run_bind, (run_issueAll_purge basePath purged paths Hpaths).
  set (answers := (statAll handle paths w).1).
  assert (Hinv : poolInv (stattedPool paths purged answers) None
                         ([] ++ statEntries paths answers)).
  { apply (stattedPool_inv purged paths basePath Hpaths). apply statAll_length. }
  rewrite run_bind.
  destruct (run_deliver schedule _ None (statAll handle paths w).2 _ Hinv)
    as (entries1 & w1 & pool' & first1 & Hrun1 & Hinv1 & Hperm1).
  rewrite Hrun1. rewrite run_bind.
  destruct (run_drain pool' first1 w1 _ Hinv1)
    as (entries2 & w2 & outcomes & first2 & Hrun2 & Hcalls2 & Hfirst2 & Hfail2 & Hok2).
  rewrite Hrun2. cbn [app] in *. rewrite <- app_assoc in *.
  assert (Hdue : map fst (entries1 ++ entries2) ≡ₚ dueUnlinks paths purged answers).
  { rewrite map_app, Hcalls2, Hperm1, stattedPool_nextCalls. reflexivity. }
  destruct first2 as [e | ].
  - exists (entries1 ++ entries2), w2, (Err e).
    cbn [run]. rewrite !app_nil_r, map_app, !app_assoc.
    split; [reflexivity | ]. rewrite <- !app_assoc, <- map_app.
    split; [exact Hdue | ].
    split; [intros e' [= <-]; apply Hfirst2; reflexivity | ].
    split; [intros _; exists e; reflexivity | right; exists e; reflexivity].
  - destruct (collect_fulfilled outcomes (Hok2 eq_refl)) as [values Hvalues].
    exists (entries1 ++ entries2), w2, (Ok tt).
    rewrite Hvalues. cbn [lift run]. rewrite !app_nil_r, map_app, !app_assoc.
    split; [reflexivity | ]. rewrite <- !app_assoc, <- map_app.
    split; [exact Hdue | ].
    split; [discriminate | ].
    split; [ | left; reflexivity].
    intros Hsome. destruct (Hfail2 Hsome). reflexivity.
Qed.

(** The same, read off the run in the environment itself. *)
Lemma fallbackPurge_history (basePath : string) (purged : list json)
      (paths : list string) (w : W) :
  Forall2 (deployedAt path_join basePath) purged paths ->
  exists unlinks out,
    history_of handle (fallbackPurge path_join schedule basePath purged) w
    = statEntries paths (statAll handle paths w).1 ++ unlinks
    /\ calls_of handle (fallbackPurge path_join schedule basePath purged) w
       = map StatAsync paths ++ map fst unlinks
    /\ outcome_of handle (fallbackPurge path_join schedule basePath purged) w = Some out
    /\ map fst unlinks ≡ₚ dueUnlinks paths purged (statAll handle paths w).1
    /\ (forall e, out = Err e ->
                  failed (statEntries paths (statAll handle paths w).1 ++ unlinks) e)
    /\ ((exists e, failed (statEntries paths (statAll handle paths w).1 ++ unlinks) e) ->
        exists e, out = Err e)
    /\ (out = Ok tt \/ exists e, out = Err e).
Proof.
  intros Hpaths.
  destruct (run_fallbackPurge_logged basePath purged paths w Hpaths)
    as (unlinks & w' & out & Hrun & Hrest).
  rewrite run_logging in Hrun. injection Hrun as Hcalls _ Hhistory Hout.
  exists unlinks, out. cbn [app] in Hhistory. auto.
Qed.

(** C5: [fallbackPurge] on recorded files whose [relPath] are strings, in
    whatever order the answers to its calls come in.
    - It first stats every file, in the order of the list, at
      [path.join(basePath, relPath)]; each stat is answered by the
      environment in turn.
    - The calls that follow are unlinks: one for each file whose stat found
      a file with the modification time recorded, and no other. A file that
      was not found, that has another modification time, or whose stat
      failed, is not touched.
    - The purge is fulfilled exactly when no call failed with an error other
      than not-found: a file missing at its stat or at its unlink is passed
      over.
    - When a call failed with another error, the purge is rejected, with the
      error of such a call: with that error when it is the only one.
    Nothing is rolled back: the calls are those stats and unlinks, and the
    unlinks due are made whether the purge is rejected or not. *)
Theorem fallbackPurge_stats_then_unlinks (basePath : string) (purged : list json)
        (paths : list string) (w : W) :
  Forall2 (deployedAt path_join basePath) purged paths ->
  let purge := fallbackPurge path_join schedule basePath purged in
  let answers := (statAll handle paths w).1 in
  let history := history_of handle purge w in
  exists unlinks,
    history = statEntries paths answers ++ unlinks
    /\ calls_of handle purge w = map StatAsync paths ++ map fst unlinks
    /\ map fst unlinks ≡ₚ dueUnlinks paths purged answers
    /\ (outcome_of handle purge w = Some (Ok tt) <-> forall e, ~ failed history e)
    /\ (forall e, outcome_of handle purge w = Some (Err e) -> failed history e)
    /\ (forall e, failed history e ->
                  exists e', outcome_of handle purge w = Some (Err e'))
    /\ (forall e, failed history e ->
                  (forall e', failed history e' -> e' = e) ->
                  outcome_of handle purge w = Some (Err e)).
Proof.
  intros Hpaths purge answers history. subst purge answers history.
  destruct (fallbackPurge_history basePath purged paths w Hpaths)
    as (unlinks & out & Hhistory & Hcalls & Hout & Hdue & Herr & Hfail & Hsettled).
  exists unlinks. rewrite Hhistory, Hout.
  split; [reflexivity | ]. split; [exact Hcalls | ]. split; [exact Hdue | ].
  split; [ | split; [ | split]].
  - split.
    + intros [= ->] e He. destruct (Hfail (ex_intro _ e He)) as [e' He']. discriminate.
    + intros Hnone. destruct Hsettled as [-> | [e ->]]; [reflexivity | ].
      destruct (Hnone e (Herr e eq_refl)).
  - intros e [= ->]. apply Herr. reflexivity.
  - intros e He. destruct (Hfail (ex_intro _ e He)) as [e' ->]. exists e'. reflexivity.
  - intros e He Honly. destruct (Hfail (ex_intro _ e He)) as [e' ->].
    rewrite (Honly e' (Herr e' eq_refl)). reflexivity.
Qed.

End PurgeProps.

Lemma fallbackPurge_stats_then_unlinks_witness :
  calls_of Mem.handle
           (fallbackPurge Sample.path_join Sample.schedule "/game"
                          (files Sample.legacyManifest))
           (Sample.world "Purge" Sample.unlinkDenied)
  = [StatAsync "/game/a.esp"; StatAsync "/game/b.esp"; UnlinkAsync "/game/a.esp"]
  /\ outcome_of Mem.handle
                (fallbackPurge Sample.path_join Sample.schedule "/game"
                               (files Sample.legacyManifest))
                (Sample.world "Purge" Sample.unlinkDenied)
     = Some (Err (Mem.EPERM "unlink" "/game/a.esp")).
Proof.
  destruct (fallbackPurge_stats_then_unlinks Mem.handle Sample.path_join Sample.schedule
              "/game" (files Sample.legacyManifest) ["/game/a.esp"; "/game/b.esp"]
              (Sample.world "Purge" Sample.unlinkDenied))
    as (unlinks & Hhistory & Hcalls & Hdue & _ & _ & _ & Honly).
  - repeat constructor; eexists; split; reflexivity.
  - split.
    + rewrite Hcalls. apply Permutation_singleton_r in Hdue. rewrite Hdue. reflexivity.
    + assert (Hlog : history_of Mem.handle
                       (fallbackPurge Sample.path_join Sample.schedule "/game"
                                      (files Sample.legacyManifest))
                       (Sample.world "Purge" Sample.unlinkDenied)
                     = [(StatAsync "/game/a.esp", Found (mkStats 100));
                        (StatAsync "/game/b.esp", Found (mkStats 250));
                        (UnlinkAsync "/game/a.esp",
                         Failed (Mem.EPERM "unlink" "/game/a.esp"))])
        by reflexivity.
      rewrite Hlog in Honly. apply Honly.
      * split; [ | discriminate]. exists (UnlinkAsync "/game/a.esp"). do 2 right. left.
      * intros e' [[c Hc] _].
        apply elem_of_cons in Hc as [Heq | Hc]; [discriminate | ].
        apply elem_of_cons in Hc as [Heq | Hc]; [discriminate | ].
        apply elem_of_cons in Hc as [Heq | Hc]; [ | inversion Hc].
        injection Heq as _ ->. reflexivity.
Defined.

(** ** More on [repairManifest] and [readManifest] *)

Lemma filter_validRecord_twice (items : list json) :
  filter validRecord (filter validRecord items) = filter validRecord items.
Proof.
  induction items as [ | file items IH]; [reflexivity | ].
  rewrite filter_cons. destruct (decide (validRecord file)) as [Hv | Hv]; [ | exact IH].
  rewrite filter_cons, decide_True by exact Hv. rewrite IH. reflexivity.
Qed.

(** X1: repairing twice is repairing once: the manifest [repairManifest]
    returns, given to it again, comes back unchanged. *)
Theorem repairManifest_idempotent (input : ParsedManifest) (m : IDeploymentManifest) :
  repairManifest input = Ok m ->
  repairManifest (asParsed m) = Ok m.
Proof.
  intros Hm. destruct (proj1 (repairManifest_returns_iff input) (ex_intro _ m Hm))
    as [items Hitems].
  unfold repairManifest in Hm. rewrite Hitems in Hm. cbn [reduceFiles] in Hm.
  injection Hm as <-. unfold repairManifest, asParsed. cbn [p_version p_instance p_files
    p_deploymentMethod version instance files deploymentMethod reduceFiles].
  rewrite !(repairStep_fold _ []). cbn [app]. rewrite filter_validRecord_twice.
  f_equal. f_equal.
  - destruct (p_version input) as [n | ]; cbn; [ | reflexivity].
    destruct (Z.eqb_spec n 0) as [-> | Hn]; cbn; [reflexivity | ].
    destruct (Z.eqb_spec n 0); [contradiction | reflexivity].
  - destruct (p_instance input) as [s | ]; cbn; [ | reflexivity].
    destruct (String.eqb_spec s "") as [-> | Hs]; cbn; [reflexivity | ].
    destruct (String.eqb_spec s ""); [contradiction | reflexivity].
Qed.

Lemma repairManifest_idempotent_witness :
  repairManifest (asParsed {| version := 1;
                              instance := "other";
                              deploymentMethod := Some "hardlink_activator";
                              files := [Sample.file "a.esp" "modA" 100;
                                        Sample.file "b.esp" "modB" 200] |})
  = Ok {| version := 1;
          instance := "other";
          deploymentMethod := Some "hardlink_activator";
          files := [Sample.file "a.esp" "modA" 100; Sample.file "b.esp" "modB" 200] |}.
Proof.
  apply (repairManifest_idempotent Sample.damaged). reflexivity.
Defined.

Section DecodeProps.

Variable JSON_parse : string -> result ParsedManifest.
Variable format_1 : ManifestFormat.

(** X2: every record of the [files] of a manifest that [readManifest]
    returns is a valid one: not [null], with [relPath], [source] and [time]
    there and not [null]. *)
Theorem readManifest_result_invariant (fuel : nat) (data : string)
        (m : IDeploymentManifest) :
  readManifest JSON_parse format_1 fuel data = Some (Ok (Some m)) ->
  Forall validRecord (files m).
Proof.
  unfold readManifest. destruct (String.eqb data ""); [discriminate | ].
  destruct (JSON_parse data) as [parsed | e]; [ | discriminate].
  destruct (upgradeLoop format_1 fuel (Some 0) parsed) as [[upgraded | e] | ];
    try discriminate.
  destruct (repairManifest (defaultFiles upgraded)) as [m' | e] eqn:Hrepair;
    [ | discriminate].
  intros [= ->].
  destruct (proj1 (repairManifest_returns_iff _) (ex_intro _ m Hrepair)) as [items Hitems].
  destruct (repairManifest_array _ _ Hitems) as (m' & Hm' & Hfiles).
  rewrite Hrepair in Hm'. injection Hm' as <-.
  rewrite Hfiles. apply Forall_forall. intros file Hin.
  apply list_elem_of_filter in Hin. tauto.
Qed.

(** X3: the empty text is the only one for which [readManifest] returns
    [undefined]. *)
Theorem readManifest_undefined_iff_empty (fuel : nat) (data : string) :
  readManifest JSON_parse format_1 fuel data = Some (Ok None) <-> data = "".
Proof.
  unfold readManifest. destruct (String.eqb_spec data "") as [-> | Hdata].
  - split; reflexivity.
  - split; [ | contradiction].
    destruct (JSON_parse data) as [parsed | e]; [ | discriminate].
    destruct (upgradeLoop format_1 fuel (Some 0) parsed) as [[upgraded | e] | ];
      try discriminate.
    destruct (repairManifest (defaultFiles upgraded)); discriminate.
Qed.

(** X4: a manifest that declares an integer version other than 1 (and
    other than 0, which counts as none) is not read: the registry has no
    function for it, and [readManifest] throws a [TypeError] without calling
    any format function. *)
Theorem readManifest_unregistered_version (fuel : nat) (data : string)
        (parsed : ParsedManifest) (v : Z) :
  data <> "" ->
  JSON_parse data = Ok parsed ->
  p_version parsed = Some v ->
  v <> 0 -> v <> 1 ->
  readManifest JSON_parse format_1 (S fuel) data
  = Some (Err (TypeError "formats[(parsed.version || 1)] is not a function")).
Proof.
  intros Hdata Hparse Hv H0 H1. unfold readManifest.
  apply String.eqb_neq in Hdata. rewrite Hdata, Hparse, upgradeLoop_step.
  change (num_lt (Some 0) CURRENT_VERSION) with true. cbv iota.
  rewrite Hv. unfold formats, num_or.
  destruct (Z.eqb_spec v 0); [contradiction | ].
  destruct (Z.eqb_spec v 1); [contradiction | reflexivity].
Qed.

(** X5: when the manifest declares version 1, 0 or none, and the format
    function returns an object whose version is not below the current one
    (or absent), [readManifest] makes one upgrade step, whatever the loop
    bound, and returns what [repairManifest] makes of that object; an object
    without [files] gives a manifest with no files. *)
Theorem readManifest_one_step (fuel : nat) (data : string)
        (parsed upgraded : ParsedManifest) :
  data <> "" ->
  JSON_parse data = Ok parsed ->
  num_or (p_version parsed) 1 = 1 ->
  format_1 parsed = Ok upgraded ->
  num_lt (p_version upgraded) CURRENT_VERSION = false ->
  readManifest JSON_parse format_1 (S fuel) data
  = Some (match repairManifest (defaultFiles upgraded) with
          | Ok m => Ok (Some m)
          | Err e => Err e
          end)
  /\ (p_files upgraded = None ->
      exists m, readManifest JSON_parse format_1 (S fuel) data = Some (Ok (Some m))
                /\ files m = []).
Proof.
  intros Hdata Hparse Hkey Hformat Hversion.
  assert (Hread : readManifest JSON_parse format_1 (S fuel) data
                  = Some (match repairManifest (defaultFiles upgraded) with
                          | Ok m => Ok (Some m)
                          | Err e => Err e
                          end)).
  { unfold readManifest. apply String.eqb_neq in Hdata.
    rewrite Hdata, Hparse, upgradeLoop_step.
    change (num_lt (Some 0) CURRENT_VERSION) with true. cbv iota.
    rewrite Hkey. unfold formats. cbn [Z.eqb Pos.eqb]. rewrite Hformat, Hversion, andb_false_r.
    rewrite upgradeLoop_exit by exact Hversion.
    destruct (repairManifest (defaultFiles upgraded)); reflexivity. }
  split; [exact Hread | ].
  intros Hfiles. rewrite Hread. unfold defaultFiles, repairManifest. rewrite Hfiles.
  cbn [p_files reduceFiles fold_left]. eexists. split; reflexivity.
Qed.

End DecodeProps.

Lemma readManifest_result_invariant_witness :
  Forall validRecord (files Sample.legacyManifest).
Proof.
  apply (readManifest_result_invariant Sample.parse Sample.format_1 2
           (Sample.text Sample.legacy)).
  reflexivity.
Defined.

Lemma readManifest_unregistered_version_witness :
  readManifest Saved.parse Sample.format_1 2 (Sample.text Saved.newer)
  = Some (Err (TypeError "formats[(parsed.version || 1)] is not a function")).
Proof.
  apply (readManifest_unregistered_version Saved.parse Sample.format_1 1
           (Sample.text Saved.newer) Saved.newer 2).
  - discriminate.
  - reflexivity.
  - reflexivity.
  - discriminate.
  - discriminate.
Defined.

Lemma readManifest_one_step_witness :
  exists m, readManifest Saved.parse Sample.format_1 2 (Sample.text Saved.bare)
            = Some (Ok (Some m))
            /\ files m = [].
Proof.
  destruct (readManifest_one_step Saved.parse Sample.format_1 1
              (Sample.text Saved.bare) Saved.bare Saved.bare)
    as [_ Hbare].
  - discriminate.
  - reflexivity.
  - reflexivity.
  - reflexivity.
  - reflexivity.
  - apply Hbare. reflexivity.
Defined.

(** ** More on [loadActivation] and [saveActivation] *)

Section LoadSaveProps.

Context {W : Type} (handle : forall c : call, W -> result (answer c) * W).

Variable JSON_parse : string -> result ParsedManifest.
Variable JSON_stringify : IDeploymentManifest -> string.
Variable format_1 : ManifestFormat.
Variable path_join : string -> string -> string.
Variable getActivator : string -> option IDeploymentMethod.
Variable fuel : nat.
Variable schedule : list nat.

Local Abbreviation load :=
  (loadActivation JSON_parse JSON_stringify format_1 path_join getActivator fuel schedule).
Local Abbreviation save := (saveActivation JSON_parse JSON_stringify path_join).
Local Abbreviation manifestFile := (tagFile path_join).
Local Abbreviation conflict :=
  (load_conflict handle JSON_parse JSON_stringify format_1 path_join getActivator fuel schedule).

(** X6: when the manifest read belongs to the current instance, or has no
    files, [loadActivation] resolves to the files of the manifest after the
    read alone: no dialog, nothing removed. *)
Theorem load_own_manifest (api : IExtensionApi) (modType : option string)
        (modPath : string) (activator : IDeploymentMethod) (w w1 : W) (data : string)
        (m : IDeploymentManifest) :
  handle (ReadFileAsync (manifestFile modType modPath) "utf8") w = (Ok data, w1) ->
  readManifest JSON_parse format_1 fuel data = Some (Ok (Some m)) ->
  instance m = instanceId api \/ files m = [] ->
  run handle (load api modType (Some modPath) activator) w
  = ([ReadFileAsync (manifestFile modType modPath) "utf8"], w1, Some (Ok (files m))).
Proof.
  intros Hread Hdecode Hown. unfold loadActivation. simpl. rewrite Hread. simpl.
  rewrite Hdecode. simpl.
  destruct Hown as [Hsame | Hnone].
  - rewrite Hsame, String.eqb_refl. reflexivity.
  - rewrite Hnone, andb_false_r. reflexivity.
Qed.

(** X7: when the text read is no manifest ([readManifest] throws: the
    text is no JSON, the version has no format function, [files] is no
    array), [loadActivation] is rejected after the read alone, with an error
    whose message is the message thrown followed by the path of the manifest
    file. *)
Theorem load_malformed_manifest (api : IExtensionApi) (modType : option string)
        (modPath : string) (activator : IDeploymentMethod) (w w1 : W) (data : string)
        (e : error) :
  handle (ReadFileAsync (manifestFile modType modPath) "utf8") w = (Ok data, w1) ->
  readManifest JSON_parse format_1 fuel data = Some (Err e) ->
  err_code e <> Some "ENOENT" ->
  run handle (load api modType (Some modPath) activator) w
  = ([ReadFileAsync (manifestFile modType modPath) "utf8"], w1,
     Some (Err (reportRead (manifestFile modType modPath) e)))
  /\ exists after,
      err_message (reportRead (manifestFile modType modPath) e)
      = err_message e +:+ "." +:+ nl +:+ "*** When you report this, please include the file "
        +:+ dq +:+ manifestFile modType modPath +:+ after.
Proof.
  intros Hread Hdecode Hcode. split.
  - unfold loadActivation. simpl. rewrite Hread. simpl. rewrite Hdecode. simpl.
    rewrite bool_decide_eq_false_2 by exact Hcode. reflexivity.
  - exists (" ***" +:+ dq). reflexivity.
Qed.

(** X8: when the dialog itself fails, [loadActivation] is rejected with
    the error of the dialog, as it is, after the read and the dialog: no
    file is touched. *)
Theorem load_dialog_fails (api : IExtensionApi) (modType : option string)
        (modPath : string) (activator : IDeploymentMethod) (w w1 w2 : W) (data : string)
        (m : IDeploymentManifest) (e : error) :
  handle (ReadFileAsync (manifestFile modType modPath) "utf8") w = (Ok data, w1) ->
  readManifest JSON_parse format_1 fuel data = Some (Ok (Some m)) ->
  instance m <> instanceId api ->
  files m <> [] ->
  handle (purgeDialog api (purgeIsSafe getActivator m)) w1 = (Err e, w2) ->
  run handle (load api modType (Some modPath) activator) w
  = ([ReadFileAsync (manifestFile modType modPath) "utf8";
      purgeDialog api (purgeIsSafe getActivator m)],
     w2, Some (Err e)).
Proof.
  intros Hread Hdecode Hforeign Hfiles Hdialog.
  rewrite (conflict _ _ _ _ _ _ _ _ Hread Hdecode Hforeign Hfiles), Hdialog. reflexivity.
Qed.

(** X9: when the user chose Purge and the fallback purge is rejected, the
    error is shown in a notification (if showing it does not fail) and
    [loadActivation] is rejected with [UserCanceled]; the manifest file is
    neither removed nor written, so what the purge left is still recorded. *)
Theorem load_purge_fails (api : IExtensionApi) (modType : option string)
        (modPath : string) (activator : IDeploymentMethod) (w w1 w2 w3 w4 : W)
        (data : string) (m : IDeploymentManifest) (answered : IDialogResult)
        (purgeCalls : list call) (err : error) :
  handle (ReadFileAsync (manifestFile modType modPath) "utf8") w = (Ok data, w1) ->
  readManifest JSON_parse format_1 fuel data = Some (Ok (Some m)) ->
  instance m <> instanceId api ->
  files m <> [] ->
  handle (purgeDialog api (purgeIsSafe getActivator m)) w1 = (Ok answered, w2) ->
  action answered = "Purge" ->
  run handle (fallbackPurge path_join schedule modPath (files m)) w2
  = (purgeCalls, w3, Some (Err err)) ->
  handle (ShowErrorNotification "Purging failed" err false) w3 = (Ok tt, w4) ->
  run handle (load api modType (Some modPath) activator) w
  = (ReadFileAsync (manifestFile modType modPath) "utf8"
       :: purgeDialog api (purgeIsSafe getActivator m)
       :: purgeCalls ++ [ShowErrorNotification "Purging failed" err false],
     w4, Some (Err UserCanceled))
  /\ Forall (fun c => isRemove c = false /\ isWrite c = false)
            (calls_of handle (load api modType (Some modPath) activator) w).
Proof.
  intros Hread Hdecode Hforeign Hfiles Hanswer Hpurge Hrun Hnotify.
  assert (Hload : run handle (load api modType (Some modPath) activator) w
                  = (ReadFileAsync (manifestFile modType modPath) "utf8"
                       :: purgeDialog api (purgeIsSafe getActivator m)
                       :: purgeCalls ++ [ShowErrorNotification "Purging failed" err false],
                     w4, Some (Err UserCanceled))).
  { rewrite (conflict _ _ _ _ _ _ _ _ Hread Hdecode Hforeign Hfiles), Hanswer.
    unfold afterDialog. cbn [lift bind].
    apply String.eqb_eq in Hpurge. rewrite Hpurge.
    rewrite run_bind, run_catch, Hrun, run_bind, run_perform, Hnotify. reflexivity. }
  split; [exact Hload | ].
  unfold calls_of. rewrite Hload. cbn [fst].
  constructor; [split; reflexivity | ]. constructor; [split; reflexivity | ].
  apply Forall_app. split; [ | repeat constructor].
  pose proof (only_calls handle isStatOrUnlink _ w2
                (fallbackPurge_only path_join schedule modPath (files m))) as Honly.
  unfold calls_of in Honly. rewrite Hrun in Honly. cbn [fst] in Honly.
  eapply Forall_impl; [exact Honly | ].
  intros c Hc. destruct c; try contradiction; split; reflexivity.
Qed.

(** X10: with files to record, [saveActivation] makes one call, the atomic
    write of the serialized manifest (current version, the instance, the
    deployment method and the files given) to the manifest file, and settles
    as the write does: an error of the write is the error of the save. *)
Theorem save_writes_manifest (modType : option string)
        (instance gamePath activatorId : string) (activation : list json)
        (w w1 : W) (r : result unit) :
  activation <> [] ->
  (exists parsed,
      JSON_parse (JSON_stringify {| version := CURRENT_VERSION;
                                    instance := instance;
                                    deploymentMethod := Some activatorId;
                                    files := activation |}) = Ok parsed) ->
  handle (WriteFileAtomic (manifestFile modType gamePath)
            (JSON_stringify {| version := CURRENT_VERSION;
                               instance := instance;
                               deploymentMethod := Some activatorId;
                               files := activation |})) w = (r, w1) ->
  run handle (save modType instance gamePath activation activatorId) w
  = ([WriteFileAtomic (manifestFile modType gamePath)
        (JSON_stringify {| version := CURRENT_VERSION;
                           instance := instance;
                           deploymentMethod := Some activatorId;
                           files := activation |})],
     w1, Some r).
Proof.
  intros Hfiles [parsed Hcheck] Hwrite. unfold saveActivation. rewrite Hcheck.
  destruct activation as [ | file rest]; [contradiction | ].
  assert (Hlen : (Z.of_nat (length (file :: rest)) =? 0) = false)
    by (apply Z.eqb_neq; simpl length; lia).
  rewrite Hlen. cbv iota. unfold perform. cbn [run]. rewrite Hwrite.
  destruct r as [[] | e]; reflexivity.
Qed.

End LoadSaveProps.

(** ** Writing and reading back *)

Section RoundTrip.

Context {W : Type} (handle : forall c : call, W -> result (answer c) * W).

Variable JSON_parse : string -> result ParsedManifest.
Variable JSON_stringify : IDeploymentManifest -> string.
Variable format_1 : ManifestFormat.
Variable path_join : string -> string -> string.
Variable getActivator : string -> option IDeploymentMethod.
Variable schedule : list nat.

Lemma filter_validRecord_all (items : list json) :
  Forall validRecord items -> filter validRecord items = items.
Proof.
  induction 1 as [ | file items Hfile _ IH]; [reflexivity | ].
  rewrite filter_cons, decide_True by exact Hfile. rewrite IH. reflexivity.
Qed.

Lemma readManifest_of_current (fuel : nat) (m : IDeploymentManifest) :
  version m = CURRENT_VERSION ->
  JSON_stringify m <> "" ->
  JSON_parse (JSON_stringify m) = Ok (asParsed m) ->
  format_1 (asParsed m) = Ok (asParsed m) ->
  readManifest JSON_parse format_1 (S fuel) (JSON_stringify m)
  = Some (Ok (Some {| version := version m;
                      instance := instance m;
                      deploymentMethod := deploymentMethod m;
                      files := filter validRecord (files m) |})).
Proof.
  intros Hversion Hdata Hparse Hformat. unfold readManifest.
  apply String.eqb_neq in Hdata. rewrite Hdata, Hparse, upgradeLoop_step.
  change (num_lt (Some 0) CURRENT_VERSION) with true. cbv iota.
  assert (Hkey : num_or (p_version (asParsed m)) 1 = 1)
    by (cbn [asParsed p_version]; rewrite Hversion; reflexivity).
  assert (Hcurrent : num_lt (p_version (asParsed m)) CURRENT_VERSION = false)
    by (cbn [asParsed p_version]; rewrite Hversion; reflexivity).
  rewrite Hkey. unfold formats. cbn [Z.eqb Pos.eqb].
  rewrite Hformat, Hcurrent, andb_false_r, upgradeLoop_exit by exact Hcurrent.
  unfold defaultFiles, repairManifest, asParsed.
  cbn [p_files p_version p_instance p_deploymentMethod reduceFiles].
  rewrite (repairStep_fold _ []), Hversion. cbn.
  f_equal. f_equal. f_equal.
  destruct (String.eqb_spec (instance m) "") as [-> | _]; reflexivity.
Qed.

(** X12: decoding what was encoded is repairing: for a manifest of the
    current version, if [JSON.parse] returns the object [JSON.stringify] was
    given and the format function leaves an object of version 1 as it is,
    then [readManifest] on the text of the manifest returns the manifest with
    its invalid records dropped, and the manifest itself when it has none. *)
Theorem readManifest_stringify (fuel : nat) (m : IDeploymentManifest) :
  version m = CURRENT_VERSION ->
  JSON_stringify m <> "" ->
  JSON_parse (JSON_stringify m) = Ok (asParsed m) ->
  format_1 (asParsed m) = Ok (asParsed m) ->
  readManifest JSON_parse format_1 (S fuel) (JSON_stringify m)
  = Some (Ok (Some {| version := version m;
                      instance := instance m;
                      deploymentMethod := deploymentMethod m;
                      files := filter validRecord (files m) |}))
  /\ (Forall validRecord (files m) ->
      readManifest JSON_parse format_1 (S fuel) (JSON_stringify m) = Some (Ok (Some m))).
Proof.
  intros Hversion Hdata Hparse Hformat.
  pose proof (readManifest_of_current fuel m Hversion Hdata Hparse Hformat) as Hread.
  split; [exact Hread | ].
  intros Hvalid. rewrite Hread, (filter_validRecord_all _ Hvalid).
  destruct m; reflexivity.
Qed.

(** X13: a save followed by a load, by the same instance, for the same
    directory and mod type: if the write succeeds, the read returns what was
    written, and [JSON.parse] inverts [JSON.stringify] on the manifest
    written, then the two calls made are the write and the read of the same
    file, and the load resolves to the files saved, less the invalid
    records; to the very files saved when all are valid. *)
Theorem save_then_load (fuel : nat) (api : IExtensionApi) (modType : option string)
        (dir : string) (activator : IDeploymentMethod) (activatorId : string)
        (activation : list json) (w w1 w2 : W) :
  let m := {| version := CURRENT_VERSION;
              instance := instanceId api;
              deploymentMethod := Some activatorId;
              files := activation |} in
  activation <> [] ->
  JSON_stringify m <> "" ->
  JSON_parse (JSON_stringify m) = Ok (asParsed m) ->
  format_1 (asParsed m) = Ok (asParsed m) ->
  handle (WriteFileAtomic (tagFile path_join modType dir) (JSON_stringify m)) w
  = (Ok tt, w1) ->
  handle (ReadFileAsync (tagFile path_join modType dir) "utf8") w1
  = (Ok (JSON_stringify m), w2) ->
  run handle
      (bind (saveActivation JSON_parse JSON_stringify path_join modType (instanceId api)
                            dir activation activatorId)
            (fun _ => loadActivation JSON_parse JSON_stringify format_1 path_join
                                     getActivator (S fuel) schedule api modType (Some dir)
                                     activator))
      w
  = ([WriteFileAtomic (tagFile path_join modType dir) (JSON_stringify m);
      ReadFileAsync (tagFile path_join modType dir) "utf8"],
     w2, Some (Ok (filter validRecord activation)))
  /\ (Forall validRecord activation -> filter validRecord activation = activation).
Proof.
  intros m Hfiles Hdata Hparse Hformat Hwrite Hread.
  split; [ | apply filter_validRecord_all].
  rewrite run_bind.
  assert (Hsave : run handle
                      (saveActivation JSON_parse JSON_stringify path_join modType
                                      (instanceId api) dir activation activatorId) w
                  = ([WriteFileAtomic (tagFile path_join modType dir) (JSON_stringify m)],
                     w1, Some (Ok tt))).
  { unfold saveActivation. fold m. rewrite Hparse.
    assert (Hlen : (Z.of_nat (length activation) =? 0) = false)
      by (apply Z.eqb_neq; destruct activation; [contradiction | simpl length; lia]).
    rewrite Hlen. cbv iota. unfold perform. cbn [run]. rewrite Hwrite. reflexivity. }
  rewrite Hsave.
  pose proof (readManifest_of_current fuel m eq_refl Hdata Hparse Hformat) as Hdecode.
  unfold loadActivation. simpl. rewrite Hread. simpl. rewrite Hdecode. simpl.
  rewrite String.eqb_refl. reflexivity.
Qed.

End RoundTrip.

(** ** What the store never does *)

Lemma only_atMostOne {A} (P : call -> bool) (p : prog A) :
  only (fun c => P c = false) p -> atMostOne P p.
Proof.
  induction p as [a | e | | c k IH]; simpl; auto.
  intros [Hc Hk]. rewrite Hc. intros r. apply IH, Hk.
Qed.

Lemma atMostOne_bind {A B} (P : call -> bool) (p : prog A) (f : A -> prog B) :
  only (fun c => P c = false) p ->
  (forall a, atMostOne P (f a)) ->
  atMostOne P (bind p f).
Proof.
  intros Hp Hf. induction p as [a | e | | c k IH]; simpl in *; auto.
  destruct Hp as [Hc Hk]. rewrite Hc. intros r. apply IH, Hk.
Qed.

Lemma atMostOne_calls {A W} (handle : forall c : call, W -> result (answer c) * W)
      (P : call -> bool) (p : prog A) (w : W) :
  atMostOne P p -> (length (List.filter P (calls_of handle p w)) <= 1)%nat.
Proof.
  unfold calls_of. revert w.
  induction p as [a | e | | c k IH]; intros w Hp; simpl; try lia.
  cbn [atMostOne] in Hp.
  destruct (handle c w) as [r w1].
  destruct (P c) eqn:Hc.
  - pose proof (only_calls handle _ _ w1 (Hp r)) as Hrest. unfold calls_of in Hrest.
    destruct (run handle (k r) w1) as [[calls w2] out]. simpl in *. rewrite Hc. simpl.
    assert (Hnone : List.filter P calls = []).
    { clear -Hrest. induction Hrest as [ | c' calls Hc' _ IH]; simpl; [reflexivity | ].
      rewrite Hc'. exact IH. }
    rewrite Hnone. simpl. lia.
  - specialize (IH r w1 (Hp r)).
    destruct (run handle (k r) w1) as [[calls w2] out]. simpl in *. rewrite Hc. exact IH.
Qed.

Lemma only_purgeCalls (path_join : string -> string -> string) (order : list nat)
      (basePath : string) (purged : list json) :
  only (purgeCallOf path_join basePath purged)
       (fallbackPurge path_join order basePath purged).
Proof.
  unfold fallbackPurge. apply only_bind; [ | intros _; exact I].
  apply only_Promise_map. intros file p Hin Hp. unfold purgeFile in Hp.
  destruct (prop file "relPath") as [[ | | | relPath | | ] | ] eqn:Hpath;
    try discriminate.
  injection Hp as <-.
  assert (Hstat : purgeCallOf path_join basePath purged
                              (StatAsync (path_join basePath relPath))).
  { exists file, relPath. auto. }
  assert (Hunlink : purgeCallOf path_join basePath purged
                                (UnlinkAsync (path_join basePath relPath))).
  { exists file, relPath. auto. }
  unfold purgeAt. simpl. split; [exact Hstat | ].
  intros [stats | err]; simpl.
  - destruct (sameTime stats file); simpl; [ | exact I].
    split; [exact Hunlink | ]. intros [[] | err]; simpl; [exact I | ].
    destruct (negb _); exact I.
  - destruct (negb _); exact I.
Qed.

Section NeverProps.

Context {W : Type} (handle : forall c : call, W -> result (answer c) * W).

Variable JSON_parse : string -> result ParsedManifest.
Variable JSON_stringify : IDeploymentManifest -> string.
Variable format_1 : ManifestFormat.
Variable path_join : string -> string -> string.
Variable getActivator : string -> option IDeploymentMethod.
Variable fuel : nat.
Variable schedule : list nat.

Local Abbreviation load :=
  (loadActivation JSON_parse JSON_stringify format_1 path_join getActivator fuel schedule).

Lemma load_decode_only (P : call -> Prop) (api : IExtensionApi) (file : string) :
  P (ReadFileAsync file "utf8") ->
  only P (catch (bind (perform (ReadFileAsync file "utf8"))
                      (fun data => match readManifest JSON_parse format_1 fuel data with
                                   | Some r => lift r
                                   | None => Spin
                                   end))
                (fun err => if bool_decide (err_code err = Some "ENOENT")
                            then Ret (Some (emptyManifest (instanceId api)))
                            else Throw (reportRead file err))).
Proof.
  intros Hread. apply only_catch.
  - apply only_bind; [apply only_perform, Hread | intros data].
    destruct (readManifest JSON_parse format_1 fuel data); [apply only_lift | exact I].
  - intros err. destruct (bool_decide _); exact I.
Qed.

Lemma afterDialog_never_writes (api : IExtensionApi) (modType : option string)
      (modPath : string) (activator : IDeploymentMethod)
      (purged : list json) (r : result IDialogResult) :
  only (fun c => isWrite c = false)
       (afterDialog JSON_parse JSON_stringify path_join schedule api modType modPath activator
                    purged r).
Proof.
  unfold afterDialog. apply only_bind.
  - apply only_bind; [apply only_lift | intros answered].
    destruct (String.eqb _ _); [ | exact I].
    apply only_catch.
    + eapply only_weaken; [ | apply fallbackPurge_only]. intros []; simpl; tauto.
    + intros err. apply only_bind; [apply only_perform; reflexivity | intros _; exact I].
  - intros _. apply only_bind; [ | intros _; exact I].
    unfold saveActivation. destruct (JSON_parse _); [ | exact I].
    cbn [length Z.of_nat Z.eqb].
    apply only_catch; [apply only_perform; reflexivity | intros e; exact I].
Qed.

(** X14: [loadActivation] never writes the manifest file: whatever its
    arguments and whatever the environment answers, no atomic write is among
    its calls (the only change it makes to the manifest is its removal after
    a purge). *)
Theorem load_never_writes (api : IExtensionApi) (modType modPath : option string)
        (activator : IDeploymentMethod) (w : W) :
  Forall (fun c => isWrite c = false)
         (calls_of handle (load api modType modPath activator) w).
Proof.
  apply only_calls. destruct modPath as [modPath | ]; [ | exact I].
  unfold loadActivation. apply only_bind; [apply load_decode_only; reflexivity | ].
  intros tagObject. cbv zeta.
  destruct (negb _ && _); [ | exact I].
  unfold queryPurge.
  change (only (fun c => isWrite c = false)
               (Vis (purgeDialog api
                       (purgeIsSafe getActivator
                          (default (emptyManifest (instanceId api)) tagObject)))
                    (fun r => afterDialog JSON_parse JSON_stringify path_join schedule api modType
                                modPath activator
                                (files (default (emptyManifest (instanceId api)) tagObject))
                                r))).
  split; [reflexivity | intros r; apply afterDialog_never_writes].
Qed.

(** X15: [loadActivation] opens at most one dialog, whatever its arguments
    and whatever the environment answers. *)
Theorem load_asks_at_most_once (api : IExtensionApi) (modType modPath : option string)
        (activator : IDeploymentMethod) (w : W) :
  (dialogs (calls_of handle (load api modType modPath activator) w) <= 1)%nat.
Proof.
  unfold dialogs. apply atMostOne_calls.
  destruct modPath as [modPath | ]; [ | exact I].
  unfold loadActivation. apply atMostOne_bind; [apply load_decode_only; reflexivity | ].
  intros tagObject. cbv zeta.
  destruct (negb _ && _); [ | exact I].
  unfold queryPurge.
  change (atMostOne isDialog
               (Vis (purgeDialog api
                       (purgeIsSafe getActivator
                          (default (emptyManifest (instanceId api)) tagObject)))
                    (fun r => afterDialog JSON_parse JSON_stringify path_join schedule api modType
                                modPath activator
                                (files (default (emptyManifest (instanceId api)) tagObject))
                                r))).
  cbn [atMostOne]. unfold purgeDialog at 1. cbn [isDialog].
  intros r. apply afterDialog_only. exact getActivator.
Qed.

(** X16: [fallbackPurge] touches recorded files only: whatever the
    environment answers, each of its calls is the stat or the unlink of
    [path.join(basePath, relPath)] for the [relPath] of a file of the list. *)
Theorem fallbackPurge_recorded_only (basePath : string) (purged : list json) (w : W) :
  Forall (purgeCallOf path_join basePath purged)
         (calls_of handle (fallbackPurge path_join schedule basePath purged) w).
Proof. apply only_calls, only_purgeCalls. Qed.

End NeverProps.

(** ** [fallbackPurge] on the disk in memory *)

Section MemPurge.

Variable path_join : string -> string -> string.
Variable schedule : list nat.

Lemma calls_of_vis {A W} (handle : forall c : call, W -> result (answer c) * W)
      (c : call) (k : result (answer c) -> prog A) (w : W) :
  calls_of handle (Vis c k) w = c :: calls_of handle (k (handle c w).1) (handle c w).2.
Proof.
  unfold calls_of. simpl. destruct (handle c w) as [r w1]. simpl.
  destruct (run handle (k r) w1) as [[calls w2] out]. reflexivity.
Qed.

Lemma world_of_vis {A W} (handle : forall c : call, W -> result (answer c) * W)
      (c : call) (k : result (answer c) -> prog A) (w : W) :
  world_of handle (Vis c k) w = world_of handle (k (handle c w).1) (handle c w).2.
Proof.
  unfold world_of. simpl. destruct (handle c w) as [r w1]. simpl.
  destruct (run handle (k r) w1) as [[calls w2] out]. reflexivity.
Qed.

Lemma mem_handle_faultless (c : call) (w : Mem.World) :
  faultless w -> Mem.handle c w = Mem.serve c w.
Proof. intros Hfaults. unfold Mem.handle. rewrite Hfaults. reflexivity. Qed.

Lemma mem_stat (path : string) (w : Mem.World) :
  faultless w ->
  Mem.handle (StatAsync path) w
  = (match Mem.disk w !! path with
     | Some (_, time) => Ok (mkStats time)
     | None => Err (Mem.ENOENT "stat" path)
     end, w).
Proof.
  intros Hfaults. rewrite (mem_handle_faultless _ _ Hfaults). cbn [Mem.serve].
  destruct (Mem.disk w !! path) as [[content time] | ]; reflexivity.
Qed.

(** Stats and unlinks on the disk in memory: no call fails but for a file
    that is not there; a path loses its file when it is unlinked, and is
    left as it is otherwise. *)
Lemma mem_purge_calls {A} (p : prog A) :
  only isStatOrUnlink p ->
  forall w, faultless w ->
    (forall e, ~ failed (history_of Mem.handle p w) e)
    /\ forall path,
        (Mem.disk (world_of Mem.handle p w) !! path = None
         \/ Mem.disk (world_of Mem.handle p w) !! path = Mem.disk w !! path)
        /\ (UnlinkAsync path ∈ calls_of Mem.handle p w ->
            Mem.disk (world_of Mem.handle p w) !! path = None)
        /\ (UnlinkAsync path ∉ calls_of Mem.handle p w ->
            Mem.disk (world_of Mem.handle p w) !! path = Mem.disk w !! path).
Proof.
  induction p as [a | e | | c k IH]; intros Honly w Hfaults;
    try (split; [intros e' [[c Hc] _]; inversion Hc | ];
         intros path; split; [right; reflexivity | ];
         split; [intros Hin; inversion Hin | reflexivity]).
  destruct Honly as [Hc Hk].
  rewrite history_vis, calls_of_vis, world_of_vis, (mem_handle_faultless c w Hfaults).
  destruct c as [ | path0 | path0 | | | | ]; try contradiction; cbn [Mem.serve].
  - destruct (Mem.disk w !! path0) as [[content time] | ] eqn:Hheld; cbn [fst snd];
      match goal with
      | |- context [k ?r] => destruct (IH r (Hk r) w Hfaults) as [Hnone Hdisk]
      end.
    + split.
      * intros e [[c Hin] Hcode]. apply elem_of_cons in Hin as [Heq | Hin];
          [discriminate | ].
        apply (Hnone e). split; [exists c; exact Hin | exact Hcode].
      * intros path. destruct (Hdisk path) as (Hmono & Hgone & Hkept).
        split; [exact Hmono | ]. split.
        -- intros [Heq | Hin]%elem_of_cons; [discriminate | apply Hgone, Hin].
        -- intros Hnot. apply Hkept. intros Hin. apply Hnot. right. exact Hin.
    + split.
      * intros e [[c Hin] Hcode]. apply elem_of_cons in Hin as [Heq | Hin].
        -- injection Heq as _ ->. apply Hcode. reflexivity.
        -- apply (Hnone e). split; [exists c; exact Hin | exact Hcode].
      * intros path. destruct (Hdisk path) as (Hmono & Hgone & Hkept).
        split; [exact Hmono | ]. split.
        -- intros [Heq | Hin]%elem_of_cons; [discriminate | apply Hgone, Hin].
        -- intros Hnot. apply Hkept. intros Hin. apply Hnot. right. exact Hin.
  - destruct (Mem.disk w !! path0) as [[content time] | ] eqn:Hheld; cbn [fst snd].
    + assert (Hfaults1 : faultless (Mem.withDisk w (delete path0 (Mem.disk w))))
        by (intros c; apply Hfaults).
      destruct (IH (Ok tt) (Hk (Ok tt)) _ Hfaults1) as [Hnone Hdisk]. split.
      * intros e [[c Hin] Hcode]. apply elem_of_cons in Hin as [Heq | Hin];
          [discriminate | ].
        apply (Hnone e). split; [exists c; exact Hin | exact Hcode].
      * intros path. destruct (Hdisk path) as (Hmono & Hgone & Hkept).
        cbn [Mem.withDisk Mem.disk] in Hmono, Hkept.
        destruct (decide (path = path0)) as [-> | Hne].
        -- rewrite lookup_delete_eq in Hmono.
           assert (Hfinal : Mem.disk (world_of Mem.handle (k (Ok tt))
                                        (Mem.withDisk w (delete path0 (Mem.disk w))))
                            !! path0 = None) by (destruct Hmono; assumption).
           split; [left; exact Hfinal | ]. split; [intros _; exact Hfinal | ].
           intros Hnot. exfalso. apply Hnot. left.
        -- rewrite lookup_delete_ne in Hmono, Hkept by congruence.
           split; [exact Hmono | ]. split.
           ++ intros [Heq | Hin]%elem_of_cons; [congruence | apply Hgone, Hin].
           ++ intros Hnot. apply Hkept. intros Hin. apply Hnot. right. exact Hin.
    + destruct (IH (Err (Mem.ENOENT "unlink" path0))
                  (Hk (Err (Mem.ENOENT "unlink" path0))) w Hfaults) as [Hnone Hdisk].
      split.
      * intros e [[c Hin] Hcode]. apply elem_of_cons in Hin as [Heq | Hin].
        -- injection Heq as _ ->. apply Hcode. reflexivity.
        -- apply (Hnone e). split; [exists c; exact Hin | exact Hcode].
      * intros path. destruct (Hdisk path) as (Hmono & Hgone & Hkept).
        split; [exact Hmono | ].
        destruct (decide (path = path0)) as [-> | Hne].
        -- rewrite Hheld in Hmono.
           assert (Hfinal : Mem.disk (world_of Mem.handle
                                        (k (Err (Mem.ENOENT "unlink" path0))) w)
                            !! path0 = None) by (destruct Hmono; assumption).
           split; [intros _; exact Hfinal | ].
           intros _. rewrite Hheld. exact Hfinal.
        -- split.
           ++ intros [Heq | Hin]%elem_of_cons; [congruence | apply Hgone, Hin].
           ++ intros Hnot. apply Hkept. intros Hin. apply Hnot. right. exact Hin.
Qed.

Lemma unchangedSince_cons (basePath : string) (file : json) (purged : list json)
      (disk : gmap string (string * Z)) (path : string) :
  unchangedSince path_join basePath (file :: purged) disk path <->
  unchangedSince path_join basePath [file] disk path
  \/ unchangedSince path_join basePath purged disk path.
Proof.
  unfold unchangedSince. split.
  - intros (f & relPath & content & time & Hin & Hrest).
    apply elem_of_cons in Hin as [-> | Hin].
    + left. exists file, relPath, content, time. split; [left | exact Hrest].
    + right. exists f, relPath, content, time. auto.
  - intros [(f & relPath & content & time & Hin & Hrest)
           | (f & relPath & content & time & Hin & Hrest)].
    + apply list_elem_of_singleton in Hin as ->.
      exists file, relPath, content, time. split; [left | exact Hrest].
    + exists f, relPath, content, time. split; [right; exact Hin | exact Hrest].
Qed.

Lemma hasPath_deployedAt (basePath : string) (purged : list json) :
  Forall hasPath purged ->
  exists paths, Forall2 (deployedAt path_join basePath) purged paths.
Proof.
  induction 1 as [ | file purged [relPath Hpath] _ [paths IH]].
  - exists []. constructor.
  - exists (path_join basePath relPath :: paths).
    constructor; [exists relPath; auto | exact IH].
Qed.

(** The unlinks due on the disk in memory are those of the files the disk
    holds with the modification time recorded. *)
Lemma mem_dueUnlinks (basePath : string) (purged : list json) (paths : list string)
      (w : Mem.World) :
  faultless w ->
  Forall2 (deployedAt path_join basePath) purged paths ->
  forall path,
    UnlinkAsync path ∈ dueUnlinks paths purged (statAll Mem.handle paths w).1
    <-> unchangedSince path_join basePath purged (Mem.disk w) path.
Proof.
  intros Hfaults. induction 1 as [ | file here purged paths (relPath & Hpath & ->) _ IH];
    intros path.
  - simpl. split; [intros Hin; inversion Hin | ].
    intros (f & _ & _ & _ & Hin & _). inversion Hin.
  - cbn [statAll]. rewrite (mem_stat _ w Hfaults).
    destruct (statAll Mem.handle paths w) as [answers w'] eqn:Hrest.
    cbn [fst snd dueUnlinks] in *.
    rewrite elem_of_app, unchangedSince_cons, IH.
    assert (Hfile : UnlinkAsync path
                      ∈ option_list
                          (unlinkDue (path_join basePath relPath) file
                             match Mem.disk w !! path_join basePath relPath with
                             | Some (_, time) => Ok (mkStats time)
                             | None => Err (Mem.ENOENT "stat" (path_join basePath relPath))
                             end)
                    <-> unchangedSince path_join basePath [file] (Mem.disk w) path);
      [ | tauto].
    split.
    + destruct (Mem.disk w !! path_join basePath relPath) as [[content time] | ] eqn:Hheld;
        cbn [unlinkDue mtime]; [ | intros Hin; inversion Hin].
      case_bool_decide as Htime; [ | intros Hin; inversion Hin].
      intros Hin. apply list_elem_of_singleton in Hin. injection Hin as ->.
      exists file, relPath, content, time. split; [left | ].
      repeat split; try assumption. apply recordedTime_spec, Htime.
    + intros (f & relPath' & content & time & Hin & Hpath' & -> & Hheld & Htime).
      apply list_elem_of_singleton in Hin as ->.
      rewrite Hpath in Hpath'. injection Hpath' as <-.
      rewrite Hheld. cbn [unlinkDue mtime].
      rewrite bool_decide_eq_true_2 by (apply recordedTime_spec, Htime). left.
Qed.

(** X17: on the disk in memory, without faults, [fallbackPurge] of files
    whose [relPath] are strings succeeds, and afterwards: a path where a
    recorded file was deployed and where the disk held a file with the
    recorded modification time holds nothing; every other path holds what it
    held before, be it a file changed since, or a file never recorded. *)
Theorem fallbackPurge_in_memory (basePath : string) (purged : list json)
        (w : Mem.World) :
  faultless w ->
  Forall hasPath purged ->
  outcome_of Mem.handle (fallbackPurge path_join schedule basePath purged) w = Some (Ok tt)
  /\ forall path,
      (unchangedSince path_join basePath purged (Mem.disk w) path ->
       Mem.disk (world_of Mem.handle (fallbackPurge path_join schedule basePath purged) w) !! path
       = None)
      /\ (~ unchangedSince path_join basePath purged (Mem.disk w) path ->
          Mem.disk (world_of Mem.handle (fallbackPurge path_join schedule basePath purged) w) !! path
          = Mem.disk w !! path).
Proof.
  intros Hfaults Hpaths.
  destruct (hasPath_deployedAt basePath purged Hpaths) as [paths Hdeployed].
  destruct (fallbackPurge_history Mem.handle path_join schedule basePath purged paths w
              Hdeployed)
    as (unlinks & out & Hhistory & Hcalls & Hout & Hdue & Herr & _ & Hsettled).
  destruct (mem_purge_calls _ (fallbackPurge_only path_join schedule basePath purged)
              w Hfaults) as [Hnone Hdisk].
  split.
  - rewrite Hout. destruct Hsettled as [-> | [e ->]]; [reflexivity | ].
    destruct (Hnone e). rewrite Hhistory. apply Herr. reflexivity.
  - intros path. destruct (Hdisk path) as (_ & Hgone & Hkept).
    assert (Hiff : UnlinkAsync path
                     ∈ calls_of Mem.handle
                         (fallbackPurge path_join schedule basePath purged) w
                   <-> unchangedSince path_join basePath purged (Mem.disk w) path).
    { rewrite Hcalls, elem_of_app, Hdue, (mem_dueUnlinks basePath purged paths w Hfaults
                                            Hdeployed).
      split; [intros [Hstat | Hun]; [ | exact Hun] | intros Hun; right; exact Hun].
      apply list_elem_of_In, in_map_iff in Hstat as (p & Heq & _). discriminate. }
    split; [intros Hun; apply Hgone, Hiff, Hun | ].
    intros Hnot. apply Hkept. intros Hin. apply Hnot, Hiff, Hin.
Qed.

End MemPurge.

(** ** The further properties on the sample directories *)

Lemma load_own_manifest_witness :
  run Mem.handle (Saved.load "/mine") (Saved.world Mem.noFault (Ok (mkDialogResult "Purge")))
  = ([ReadFileAsync "/mine/vortex.deployment.json" "utf8"],
     Saved.world Mem.noFault (Ok (mkDialogResult "Purge")),
     Some (Ok [Sample.file "a.esp" "modA" 100; Sample.file "b.esp" "modB" 200])).
Proof.
  apply (load_own_manifest Mem.handle Saved.parse Sample.stringify Sample.format_1
           Sample.path_join Sample.getActivator 2 Sample.schedule Sample.api None "/mine" Sample.hardlink
           (Saved.world Mem.noFault (Ok (mkDialogResult "Purge")))
           (Saved.world Mem.noFault (Ok (mkDialogResult "Purge")))
           (Sample.stringify Saved.manifest) Saved.manifest).
  - reflexivity.
  - reflexivity.
  - left. reflexivity.
Defined.

Lemma load_malformed_manifest_witness :
  run Mem.handle (Saved.load "/junk") (Saved.world Mem.noFault (Ok (mkDialogResult "Purge")))
  = ([ReadFileAsync "/junk/vortex.deployment.json" "utf8"],
     Saved.world Mem.noFault (Ok (mkDialogResult "Purge")),
     Some (Err (reportRead "/junk/vortex.deployment.json"
                           (mkError "SyntaxError" None "Unexpected token in JSON")))).
Proof.
  apply (load_malformed_manifest Mem.handle Saved.parse Sample.stringify Sample.format_1
           Sample.path_join Sample.getActivator 2 Sample.schedule Sample.api None "/junk" Sample.hardlink
           (Saved.world Mem.noFault (Ok (mkDialogResult "Purge")))
           (Saved.world Mem.noFault (Ok (mkDialogResult "Purge")))
           "{ no json" (mkError "SyntaxError" None "Unexpected token in JSON")).
  - reflexivity.
  - reflexivity.
  - discriminate.
Defined.

Lemma load_dialog_fails_witness :
  run Mem.handle (Saved.load "/game")
      (Saved.gameWorld Mem.noFault (Err (Error_ "dialog dismissed")))
  = ([ReadFileAsync Sample.manifestPath "utf8"; purgeDialog Sample.api true],
     Saved.gameWorld Mem.noFault (Err (Error_ "dialog dismissed")),
     Some (Err (Error_ "dialog dismissed"))).
Proof.
  apply (load_dialog_fails Mem.handle Saved.parse Sample.stringify Sample.format_1
           Sample.path_join Sample.getActivator 2 Sample.schedule Sample.api None "/game" Sample.hardlink
           (Saved.gameWorld Mem.noFault (Err (Error_ "dialog dismissed")))
           (Saved.gameWorld Mem.noFault (Err (Error_ "dialog dismissed")))
           (Saved.gameWorld Mem.noFault (Err (Error_ "dialog dismissed")))
           (Sample.text Sample.legacy) Sample.legacyManifest).
  - reflexivity.
  - reflexivity.
  - discriminate.
  - discriminate.
  - reflexivity.
Defined.

Lemma load_purge_fails_witness :
  run Mem.handle (Saved.load "/game")
      (Saved.gameWorld Sample.unlinkDenied (Ok (mkDialogResult "Purge")))
  = ([ReadFileAsync Sample.manifestPath "utf8";
      purgeDialog Sample.api true;
      StatAsync "/game/a.esp"; StatAsync "/game/b.esp"; UnlinkAsync "/game/a.esp";
      ShowErrorNotification "Purging failed" (Mem.EPERM "unlink" "/game/a.esp") false],
     Saved.gameWorld Sample.unlinkDenied (Ok (mkDialogResult "Purge")),
     Some (Err UserCanceled)).
Proof.
  apply (load_purge_fails Mem.handle Saved.parse Sample.stringify Sample.format_1
           Sample.path_join Sample.getActivator 2 Sample.schedule Sample.api None "/game" Sample.hardlink
           (Saved.gameWorld Sample.unlinkDenied (Ok (mkDialogResult "Purge")))
           (Saved.gameWorld Sample.unlinkDenied (Ok (mkDialogResult "Purge")))
           (Saved.gameWorld Sample.unlinkDenied (Ok (mkDialogResult "Purge")))
           (Saved.gameWorld Sample.unlinkDenied (Ok (mkDialogResult "Purge")))
           (Saved.gameWorld Sample.unlinkDenied (Ok (mkDialogResult "Purge")))
           (Sample.text Sample.legacy) Sample.legacyManifest
           (mkDialogResult "Purge")
           [StatAsync "/game/a.esp"; StatAsync "/game/b.esp"; UnlinkAsync "/game/a.esp"]
           (Mem.EPERM "unlink" "/game/a.esp")).
  - reflexivity.
  - reflexivity.
  - discriminate.
  - discriminate.
  - reflexivity.
  - reflexivity.
  - reflexivity.
  - reflexivity.
Defined.

Lemma save_writes_manifest_witness :
  run Mem.handle (Saved.save (files Saved.manifest))
      (Saved.gameWorld Saved.writeDenied (Ok (mkDialogResult "Purge")))
  = ([WriteFileAtomic Sample.manifestPath (Sample.stringify Saved.manifest)],
     Saved.gameWorld Saved.writeDenied (Ok (mkDialogResult "Purge")),
     Some (Err (Mem.EPERM "rename" Sample.manifestPath))).
Proof.
  apply (save_writes_manifest Mem.handle Saved.parse Sample.stringify Sample.path_join
           None "me" "/game" "hardlink_activator" (files Saved.manifest)
           (Saved.gameWorld Saved.writeDenied (Ok (mkDialogResult "Purge")))
           (Saved.gameWorld Saved.writeDenied (Ok (mkDialogResult "Purge")))
           (Err (Mem.EPERM "rename" Sample.manifestPath))).
  - discriminate.
  - exists (asParsed Saved.manifest). reflexivity.
  - reflexivity.
Defined.

Lemma readManifest_stringify_witness :
  readManifest Saved.parse Sample.format_1 2 (Sample.stringify Saved.manifest)
  = Some (Ok (Some Saved.manifest)).
Proof.
  destruct (readManifest_stringify Saved.parse Sample.stringify Sample.format_1 1
              Saved.manifest) as [_ Hvalid].
  - reflexivity.
  - intros Hempty. vm_compute in Hempty. discriminate.
  - reflexivity.
  - reflexivity.
  - apply Hvalid. repeat constructor; apply keeps_validRecord; reflexivity.
Defined.

Lemma save_then_load_witness :
  outcome_of Mem.handle
    (bind (saveActivation Saved.parse Sample.stringify Sample.path_join None "me" "/game"
                          (files Saved.manifest) "hardlink_activator")
          (fun _ => Saved.load "/game"))
    (Saved.gameWorld Mem.noFault (Ok (mkDialogResult "Purge")))
  = Some (Ok (files Saved.manifest)).
Proof.
  pose (w := Saved.gameWorld Mem.noFault (Ok (mkDialogResult "Purge"))).
  pose (w1 := (Mem.handle (WriteFileAtomic Sample.manifestPath
                             (Sample.stringify Saved.manifest)) w).2).
  destruct (save_then_load Mem.handle Saved.parse Sample.stringify Sample.format_1
              Sample.path_join Sample.getActivator Sample.schedule 1 Sample.api None "/game"
              Sample.hardlink "hardlink_activator" (files Saved.manifest) w w1 w1)
    as [Hrun Hvalid].
  - discriminate.
  - intros Hempty. vm_compute in Hempty. discriminate.
  - reflexivity.
  - reflexivity.
  - reflexivity.
  - vm_compute. reflexivity.
  - unfold outcome_of, Saved.load. fold w. cbn [instanceId Sample.api] in Hrun.
    rewrite Hrun. cbn [snd]. rewrite Hvalid; [reflexivity | ].
    repeat constructor; apply keeps_validRecord; reflexivity.
Defined.

Lemma fallbackPurge_in_memory_witness :
  Mem.disk (world_of Mem.handle
              (fallbackPurge Sample.path_join Sample.schedule "/game"
                             (files Sample.legacyManifest))
              (Sample.world "Purge" Mem.noFault)) !! "/game/a.esp" = None
  /\ Mem.disk (world_of Mem.handle
                 (fallbackPurge Sample.path_join Sample.schedule "/game"
                             (files Sample.legacyManifest))
                 (Sample.world "Purge" Mem.noFault)) !! "/game/b.esp"
     = Some ("B, edited", 250).
Proof.
  destruct (fallbackPurge_in_memory Sample.path_join Sample.schedule "/game"
              (files Sample.legacyManifest)
              (Sample.world "Purge" Mem.noFault)) as [_ Hdisk].
  - intros c. reflexivity.
  - repeat constructor; eexists; reflexivity.
  - split.
    + apply Hdisk. exists (Sample.file "a.esp" "modA" 100), "a.esp", "A", 100.
      split; [left | ]. repeat split; reflexivity.
    + destruct (Hdisk "/game/b.esp") as [_ Hkept]. rewrite Hkept; [reflexivity | ].
      intros (f & relPath & content & time & Hin & Hpath & Hhere & Hheld & Htime).
      assert (Hb : Mem.disk (Sample.world "Purge" Mem.noFault) !! "/game/b.esp"
                   = Some ("B, edited", 250)) by reflexivity.
      rewrite Hb in Hheld. injection Hheld as <- <-.
      cbn [files Sample.legacyManifest] in Hin.
      apply elem_of_cons in Hin as [-> | Hin].
      * discriminate Htime.
      * apply list_elem_of_singleton in Hin as ->. discriminate Htime.
Defined.
